(** * Jobly: the SQL fragment builder and the Company, User and Job models

    A shallow embedding of [helpers/sql.js], [models/company.js],
    [models/user.js] and [models/job.js].  JavaScript objects whose key order
    matters are lists of pairs in [Object.keys] order, name mappings are finite
    maps, the asynchronous model methods are computations in a state and error
    monad over the stored tables. *)

From Stdlib Require Import ZArith QArith Ascii DecimalString.
From stdpp Require Import gmap strings list fin_maps sorting.

Local Open Scope Z_scope.


(** ** Values, errors, results *)

(** A JavaScript value bound to a positional parameter of a statement, or held
    by a column. *)
Inductive Value : Type :=
  | VNull
  | VInt (n : Z)
  | VNum (q : Q)
  | VText (s : string)
  | VBool (b : bool).

(** The errors a model method can throw: the three classes the models import
    from [expressError], and the two collaborators whose own errors the models
    let through ([db.query] and [bcrypt]). *)
Inductive Error : Type :=
  | BadRequestError (message : string)
  | NotFoundError (message : string)
  | UnauthorizedError (message : string)
  | QueryError
  | BcryptError.

Inductive result (A : Type) : Type :=
  | Ok (a : A)
  | Err (e : Error).
Arguments Ok {A} a.
Arguments Err {A} e.

(** ** JavaScript strings *)

(** The double quote character, as a one-character string. *)
Definition dq : string := String (ascii_of_nat 34) EmptyString.

(** [String(n)] for a non-negative integer. *)
Definition show_nat (n : nat) : string := NilZero.string_of_uint (Nat.to_uint n).

(** [String(z)] for an integer. *)
Definition show_Z (z : Z) : string := NilZero.string_of_int (Z.to_int z).

(** [Array.prototype.join]. *)
Fixpoint join (sep : string) (l : list string) : string :=
  match l with
  | [] => ""
  | [x] => x
  | x :: rest => x +:+ sep +:+ join sep rest
  end.

(** JavaScript truthiness of a value: [null], [0], the empty string and
    [false] are falsy. *)
Definition truthy (v : Value) : bool :=
  match v with
  | VNull => false
  | VInt n => negb (n =? 0)%Z
  | VNum q => negb (Qnum q =? 0)%Z
  | VText s => negb (String.eqb s "")
  | VBool b => b
  end.

(** ** helpers/sql.js *)

Module Sql.

(** The update data: the own enumerable properties of [dataToUpdate], in the
    order [Object.keys] and [Object.values] list them. *)
Abbreviation Data := (list (string * Value)).

(** The name mapping [jsToSql]: its own properties. *)
Abbreviation NameMap := (gmap string string).

(** What a template literal prints for a built-in function. *)
Definition native_function (name : string) : string :=
  "function " +:+ name +:+ "() { [native code] }".

(** The properties every object literal inherits from [Object.prototype],
    each with the text a template literal prints for it.  A property read
    [jsToSql[colName]] falls back on these when [jsToSql] has no own property
    of that name. *)
Definition Object_prototype : list (string * string) :=
  [ ("constructor", native_function "Object");
    ("__defineGetter__", native_function "__defineGetter__");
    ("__defineSetter__", native_function "__defineSetter__");
    ("hasOwnProperty", native_function "hasOwnProperty");
    ("__lookupGetter__", native_function "__lookupGetter__");
    ("__lookupSetter__", native_function "__lookupSetter__");
    ("isPrototypeOf", native_function "isPrototypeOf");
    ("propertyIsEnumerable", native_function "propertyIsEnumerable");
    ("toString", native_function "toString");
    ("valueOf", native_function "valueOf");
    ("__proto__", "[object Object]");
    ("toLocaleString", native_function "toLocaleString") ].

Definition inherited (name : string) : option string :=
  snd <$> List.find (λ p, String.eqb (fst p) name) Object_prototype.

(** [jsToSql[colName] || colName], as the template literal prints it: an own
    property that is the empty string is falsy, an inherited one is a function
    or an object and so truthy. *)
Definition column (jsToSql : NameMap) (colName : string) : string :=
  match jsToSql !! colName with
  | Some sqlName => if String.eqb sqlName "" then colName else sqlName
  | None =>
      match inherited colName with
      | Some text => text
      | None => colName
      end
  end.

(** One element of [cols]: [`"${jsToSql[colName] || colName}"=$${idx + 1}`]. *)
Definition assignment (jsToSql : NameMap) (idx : nat) (colName : string) : string :=
  dq +:+ column jsToSql colName +:+ dq +:+ "=$" +:+ show_nat (idx + 1).

(** [keys.map((colName, idx) => ...)]. *)
Definition cols (jsToSql : NameMap) (keys : list string) : list string :=
  imap (assignment jsToSql) keys.

Record Fragment : Type := { setCols : string; values : list Value }.

Definition sqlForPartialUpdate (dataToUpdate : Data) (jsToSql : NameMap)
  : result Fragment :=
  let keys := dataToUpdate.*1 in
  if (length keys =? 0)%nat then Err (BadRequestError "No data")
  else Ok {| setCols := join ", " (cols jsToSql keys);
             values := dataToUpdate.*2 |}.

(** The column resolution as the specification words it: the mapped name when
    the field is in the name mapping, the field's own name otherwise. *)
Definition spec_column (jsToSql : NameMap) (colName : string) : string :=
  default colName (jsToSql !! colName).

End Sql.

(** ** The stored tables *)

(** Modelled from the spec: the relational schema (the schema file is not
    among the sources).  Section 3 of the specification lists the columns;
    each table is the list of its rows in insertion order. *)
Module Companies.
Record row : Type :=
  { handle : string;
    name : string;
    description : string;
    numEmployees : option Z;
    logoUrl : option string }.
End Companies.

Module Users.
Record row : Type :=
  { username : string;
    password : string;
    firstName : string;
    lastName : string;
    email : string;
    isAdmin : bool }.
End Users.

Module Jobs.
Record row : Type :=
  { id : Z;
    title : string;
    salary : option Z;
    equity : option Q;
    companyHandle : string }.
End Jobs.

Module Applications.
Record row : Type := { job_id : Z; username : string }.
End Applications.

Record DB : Type :=
  { companies : list Companies.row;
    users : list Users.row;
    jobs : list Jobs.row;
    applications : list Applications.row }.

(** ** Collaborators outside the repository *)

(** What the database engine and the [bcrypt] package decide, taken as
    parameters: the collation [ORDER BY] sorts text by, the match
    [text ILIKE '%' || pattern || '%'], the two [bcrypt] functions (the
    salt [bcrypt.hash] draws is an explicit argument), and the order in which
    the engine reads the rows of [applications] for a SELECT that has no
    [ORDER BY]. *)
Class Externals : Type :=
  { collate_le : string → string → bool;
    ilike_contains : string → string → bool;
    bcrypt_hash : string → string → string;
    bcrypt_compare : string → string → bool;
    row_order : list Applications.row → list Applications.row }.

(** The collation is a total order on text. *)
Class Collation `{Externals} : Prop :=
  { collate_total : ∀ s t, collate_le s t = true ∨ collate_le t s = true;
    collate_trans : ∀ s t u,
      collate_le s t = true → collate_le t u = true → collate_le s u = true }.

(** ** Asynchronous methods: state and errors *)

(** An [async] method run to completion against the store: it ends with a
    value or a thrown error, and leaves a store behind either way (no
    statement of the sources runs in a transaction). *)
Definition M (A : Type) : Type := DB → result A * DB.

#[global] Instance M_ret : MRet M := λ A a db, (Ok a, db).

#[global] Instance M_bind : MBind M := λ A B f m db,
  match m db with
  | (Ok a, db') => f a db'
  | (Err e, db') => (Err e, db')
  end.

Definition throw {A : Type} (e : Error) : M A := λ db, (Err e, db).

(** A synchronous call that may throw, inside an [async] method. *)
Definition lift {A : Type} (r : result A) : M A := λ db, (r, db).

(** ** WHERE fragments *)

Inductive Cmp : Type := Gt | Lt | Ge.

(** One element of the [filters] array of [findAll]: the fragment the source
    writes as a template literal, with the number [n] of the positional
    parameter it names. *)
Inductive Filter : Type :=
  | ILike (col : string) (n : nat)
  | Compare (col : string) (op : Cmp) (n : nat)
  | Positive (col : string).

Definition cmp_sql (op : Cmp) : string :=
  match op with Gt => ">" | Lt => "<" | Ge => ">=" end.

(** The text of a fragment, character for character as in the sources:
    [`name ILIKE '%' ||$${n} || '%'`], [`num_employees > $${n}`],
    [`equity > 0 `]. *)
Definition filter_sql (f : Filter) : string :=
  match f with
  | ILike col n => col +:+ " ILIKE '%' ||$" +:+ show_nat n +:+ " || '%'"
  | Compare col op n => col +:+ " " +:+ cmp_sql op +:+ " $" +:+ show_nat n
  | Positive col => col +:+ " > 0 "
  end.

(** The loop that builds [concatenatedFilters]:
    [filters.forEach((filter, index) => { if (index !== 0) ... += "AND ";
    ... += filter + " " })], started from ["WHERE "] when there is a filter. *)
Definition concatenatedFilters (filters : list string) : string :=
  if (0 <? length filters)%nat then
    foldl (λ acc '(index, filter),
             (if (index =? 0)%nat then acc else acc +:+ "AND ") +:+ filter +:+ " ")
          "WHERE " (imap pair filters)
  else "".

(** ** The database engine *)

(** The parameter [$n] of a statement sent with the array [params]. *)
Definition param (params : list Value) (n : nat) : option Value :=
  match n with
  | O => None
  | S i => params !! i
  end.

(** The text of the SET clause over the columns [cols], the one at position
    [idx] bound to [$(idx+1)]; [update] passes the engine the columns of the
    clause [sqlForPartialUpdate] wrote. *)
Definition set_sql (cols : list string) : string :=
  join ", "
    (imap (λ idx col, dq +:+ col +:+ dq +:+ "=$" +:+ show_nat (idx + 1)) cols).

Definition assoc {A : Type} (k : string) (l : list (string * A)) : option A :=
  snd <$> List.find (λ p, String.eqb (fst p) k) l.

Definition as_text (v : Value) : option string :=
  match v with VText s => Some s | _ => None end.
Definition as_int (v : Value) : option Z :=
  match v with VInt n => Some n | _ => None end.
Definition as_bool (v : Value) : option bool :=
  match v with VBool b => Some b | _ => None end.
Definition as_nullable {A : Type} (conv : Value → option A) (v : Value)
  : option (option A) :=
  match v with VNull => Some None | _ => Some <$> conv v end.
Definition as_numeric (v : Value) : option Q :=
  match v with VNum q => Some q | VInt n => Some (inject_Z n) | _ => None end.

(** Modelled from the spec: the statements [db.query] runs (the [db] module,
    the engine behind it and the schema file are not among the sources).
    Section 3 of the specification gives the tables, the primary keys
    ([handle], [username], [id]) and the rule that an application row needs
    its job and its user; nothing else is enforced.  A statement the engine
    refuses (a column the table does not have, a value that is not of the
    column's type, a key taken twice) changes nothing and makes [db.query]
    throw. *)
Module Db.

Section Tables.
Context {R K : Type} `{EqDecision K}.
Variable key : R → K.
Variable key_of_value : Value → option K.
Variable columns : list (string * (Value → option (R → R))).

(** [WHERE key = k]. *)
Definition matching (k : K) (t : list R) : list R :=
  filter (λ r, key r = k) t.

(** [INSERT INTO t VALUES (...)], the primary key kept unique. *)
Definition insert_into (r : R) (t : list R) : option (list R) :=
  if decide (matching (key r) t = []) then Some (t ++ [r]) else None.

(** [SET "c1"=$idx, "c2"=$(idx+1), ...]: every column must be one of the
    table's and take the value bound to its parameter.  The clause is handed
    over as the list of its columns, which is what its text reads as when no
    name holds a double quote. *)
Fixpoint set_clause (cols : list string) (idx : nat) (params : list Value)
  : option (R → R) :=
  match cols with
  | [] => Some (λ r, r)
  | c :: rest =>
      conv ← assoc c columns;
      v ← param params idx;
      f ← conv v;
      g ← set_clause rest (S idx) params;
      Some (λ r, g (f r))
  end.

(** The SET clause is one the engine runs: distinct columns of the table,
    each taking the value bound to its parameter. *)
Definition accepts (cols : list string) (params : list Value) : Prop :=
  NoDup cols ∧ is_Some (set_clause cols 1 params).

(** [UPDATE t SET ... WHERE key = $key_idx RETURNING ...]: the table after
    the statement and the rows it returns. *)
Definition update_where (cols : list string) (key_idx : nat)
    (params : list Value) (t : list R) : option (list R * list R) :=
  if decide (NoDup cols) then
    f ← set_clause cols 1 params;
    k ← param params key_idx ≫= key_of_value;
    let t' := (λ r, if decide (key r = k) then f r else r) <$> t in
    if decide (matching k t = [] ∨ NoDup (key <$> t'))
    then Some (t', f <$> matching k t)
    else None
  else None.

(** [DELETE FROM t WHERE key = k RETURNING ...]: the table after the
    statement and the rows it deleted. *)
Definition delete_where (k : K) (t : list R) : list R * list R :=
  (filter (λ r, key r ≠ k) t, matching k t).
End Tables.

Definition with_companies (t : list Companies.row) (db : DB) : DB :=
  {| companies := t; users := users db; jobs := jobs db;
     applications := applications db |}.
Definition with_users (t : list Users.row) (db : DB) : DB :=
  {| companies := companies db; users := t; jobs := jobs db;
     applications := applications db |}.
Definition with_jobs (t : list Jobs.row) (db : DB) : DB :=
  {| companies := companies db; users := users db; jobs := t;
     applications := applications db |}.
Definition with_applications (t : list Applications.row) (db : DB) : DB :=
  {| companies := companies db; users := users db; jobs := jobs db;
     applications := t |}.

(** The columns of each table, under their storage names, with the values
    each takes. *)
Definition company_columns
  : list (string * (Value → option (Companies.row → Companies.row))) :=
  [ ("handle", λ v, x ← as_text v; Some (λ c,
       Companies.Build_row x (Companies.name c) (Companies.description c)
         (Companies.numEmployees c) (Companies.logoUrl c)));
    ("name", λ v, x ← as_text v; Some (λ c,
       Companies.Build_row (Companies.handle c) x (Companies.description c)
         (Companies.numEmployees c) (Companies.logoUrl c)));
    ("description", λ v, x ← as_text v; Some (λ c,
       Companies.Build_row (Companies.handle c) (Companies.name c) x
         (Companies.numEmployees c) (Companies.logoUrl c)));
    ("num_employees", λ v, x ← as_nullable as_int v; Some (λ c,
       Companies.Build_row (Companies.handle c) (Companies.name c)
         (Companies.description c) x (Companies.logoUrl c)));
    ("logo_url", λ v, x ← as_nullable as_text v; Some (λ c,
       Companies.Build_row (Companies.handle c) (Companies.name c)
         (Companies.description c) (Companies.numEmployees c) x)) ].

Definition user_columns
  : list (string * (Value → option (Users.row → Users.row))) :=
  [ ("username", λ v, x ← as_text v; Some (λ u,
       Users.Build_row x (Users.password u) (Users.firstName u)
         (Users.lastName u) (Users.email u) (Users.isAdmin u)));
    ("password", λ v, x ← as_text v; Some (λ u,
       Users.Build_row (Users.username u) x (Users.firstName u)
         (Users.lastName u) (Users.email u) (Users.isAdmin u)));
    ("first_name", λ v, x ← as_text v; Some (λ u,
       Users.Build_row (Users.username u) (Users.password u) x
         (Users.lastName u) (Users.email u) (Users.isAdmin u)));
    ("last_name", λ v, x ← as_text v; Some (λ u,
       Users.Build_row (Users.username u) (Users.password u)
         (Users.firstName u) x (Users.email u) (Users.isAdmin u)));
    ("email", λ v, x ← as_text v; Some (λ u,
       Users.Build_row (Users.username u) (Users.password u)
         (Users.firstName u) (Users.lastName u) x (Users.isAdmin u)));
    ("is_admin", λ v, x ← as_bool v; Some (λ u,
       Users.Build_row (Users.username u) (Users.password u)
         (Users.firstName u) (Users.lastName u) (Users.email u) x)) ].

Definition job_columns
  : list (string * (Value → option (Jobs.row → Jobs.row))) :=
  [ ("id", λ v, x ← as_int v; Some (λ j,
       Jobs.Build_row x (Jobs.title j) (Jobs.salary j) (Jobs.equity j)
         (Jobs.companyHandle j)));
    ("title", λ v, x ← as_text v; Some (λ j,
       Jobs.Build_row (Jobs.id j) x (Jobs.salary j) (Jobs.equity j)
         (Jobs.companyHandle j)));
    ("salary", λ v, x ← as_nullable as_int v; Some (λ j,
       Jobs.Build_row (Jobs.id j) (Jobs.title j) x (Jobs.equity j)
         (Jobs.companyHandle j)));
    ("equity", λ v, x ← as_nullable as_numeric v; Some (λ j,
       Jobs.Build_row (Jobs.id j) (Jobs.title j) (Jobs.salary j) x
         (Jobs.companyHandle j)));
    ("company_handle", λ v, x ← as_text v; Some (λ j,
       Jobs.Build_row (Jobs.id j) (Jobs.title j) (Jobs.salary j)
         (Jobs.equity j) x)) ].

(** A row of [jobs j LEFT JOIN companies c], as [Job.findAll] selects it. *)
Record JobListing : Type :=
  { id : Z;
    title : string;
    salary : option Z;
    equity : option Q;
    companyHandle : string;
    companyName : option string }.

Definition left_join_company (cs : list Companies.row) (j : Jobs.row)
  : list JobListing :=
  let listing n :=
    {| id := Jobs.id j; title := Jobs.title j; salary := Jobs.salary j;
       equity := Jobs.equity j; companyHandle := Jobs.companyHandle j;
       companyName := n |} in
  match matching Companies.handle (Jobs.companyHandle j) cs with
  | [] => [listing None]
  | cs' => (λ c, listing (Some (Companies.name c))) <$> cs'
  end.

(** The columns a WHERE fragment of [findAll] reads. *)
Definition nullable {A : Type} (inj : A → Value) (x : option A) : Value :=
  from_option inj VNull x.

Definition company_value (c : Companies.row) (col : string) : option Value :=
  assoc col
    [ ("handle", VText (Companies.handle c));
      ("name", VText (Companies.name c));
      ("description", VText (Companies.description c));
      ("num_employees", nullable VInt (Companies.numEmployees c));
      ("logo_url", nullable VText (Companies.logoUrl c)) ].

Definition listing_value (l : JobListing) (col : string) : option Value :=
  assoc col
    [ ("id", VInt (id l));
      ("title", VText (title l));
      ("salary", nullable VInt (salary l));
      ("equity", nullable VNum (equity l));
      ("company_handle", VText (companyHandle l)) ].

Definition compare_int (op : Cmp) (a b : Z) : bool :=
  match op with
  | Gt => (b <? a)%Z
  | Lt => (a <? b)%Z
  | Ge => (b <=? a)%Z
  end.

Section Statements.
Context `{Externals}.

(** Whether a row passes a WHERE fragment.  A comparison with NULL is not
    true, so the row is left out. *)
Definition holds (value : string → option Value) (params : list Value)
    (f : Filter) : bool :=
  match f with
  | ILike col n =>
      match value col, param params n with
      | Some (VText s), Some (VText pattern) => ilike_contains s pattern
      | _, _ => false
      end
  | Compare col op n =>
      match value col, param params n with
      | Some (VInt a), Some (VInt b) => compare_int op a b
      | _, _ => false
      end
  | Positive col =>
      match value col ≫= as_numeric with
      | Some q => (0 <? Qnum q)%Z
      | None => false
      end
  end.

(** [WHERE f1 AND f2 AND ...]; every row when there is no filter. *)
Definition where_ {R : Type} (value : R → string → option Value)
    (filters : list Filter) (params : list Value) (t : list R) : list R :=
  filter (λ r, forallb (holds (value r) params) filters = true) t.

(** [ORDER BY name]. *)
Definition by_name (a b : Companies.row) : Prop :=
  collate_le (Companies.name a) (Companies.name b) = true.

(** Ascending order puts NULL last. *)
Definition nulls_last_le (a b : option string) : bool :=
  match a, b with
  | Some x, Some y => collate_le x y
  | _, None => true
  | None, Some _ => false
  end.

(** [ORDER BY c.name, j.title]. *)
Definition by_company_then_title (a b : JobListing) : Prop :=
  (if nulls_last_le (companyName a) (companyName b)
   then if nulls_last_le (companyName b) (companyName a)
        then collate_le (title a) (title b)
        else true
   else false) = true.

#[global] Instance by_name_dec : RelDecision by_name.
Proof. intros a b. unfold by_name. apply _. Defined.

#[global] Instance by_company_then_title_dec :
  RelDecision by_company_then_title.
Proof. intros a b. unfold by_company_then_title. apply _. Defined.

(** [SELECT ... FROM companies WHERE handle = $1]. *)
Definition select_company (handle : string) : M (list Companies.row) :=
  λ db, (Ok (matching Companies.handle handle (companies db)), db).

(** [INSERT INTO companies ... RETURNING ...]. *)
Definition insert_company (c : Companies.row) : M Companies.row :=
  λ db,
    match insert_into Companies.handle c (companies db) with
    | Some t => (Ok c, with_companies t db)
    | None => (Err QueryError, db)
    end.

(** [SELECT ... FROM companies ${concatenatedFilters} ORDER BY name]. *)
Definition select_companies (filters : list Filter) (params : list Value)
  : M (list Companies.row) :=
  λ db,
    (Ok (merge_sort by_name
           (where_ company_value filters params (companies db))), db).

(** [UPDATE companies SET ${setCols} WHERE handle = ${handleVarIdx}
    RETURNING ...]. *)
Definition update_companies (cols : list string) (handleVarIdx : nat)
    (params : list Value) : M (list Companies.row) :=
  λ db,
    match update_where Companies.handle as_text company_columns
            cols handleVarIdx params (companies db) with
    | Some (t, rows) => (Ok rows, with_companies t db)
    | None => (Err QueryError, db)
    end.

(** [DELETE FROM companies WHERE handle = $1 RETURNING handle].  Rows of
    other tables that refer to the deleted one are left as they are: the
    specification names no rule for them. *)
Definition delete_company (handle : string) : M (list string) :=
  λ db,
    let '(t, rows) := delete_where Companies.handle handle (companies db) in
    (Ok (Companies.handle <$> rows), with_companies t db).

(** [SELECT ... FROM users WHERE username = $1]. *)
Definition select_user (username : string) : M (list Users.row) :=
  λ db, (Ok (matching Users.username username (users db)), db).

(** [INSERT INTO users ... RETURNING ...]. *)
Definition insert_user (u : Users.row) : M Users.row :=
  λ db,
    match insert_into Users.username u (users db) with
    | Some t => (Ok u, with_users t db)
    | None => (Err QueryError, db)
    end.

(** [UPDATE users SET ${setCols} WHERE username = ${usernameVarIdx}
    RETURNING ...]. *)
Definition update_users (cols : list string) (usernameVarIdx : nat)
    (params : list Value) : M (list Users.row) :=
  λ db,
    match update_where Users.username as_text user_columns
            cols usernameVarIdx params (users db) with
    | Some (t, rows) => (Ok rows, with_users t db)
    | None => (Err QueryError, db)
    end.

(** [DELETE FROM users WHERE username = $1 RETURNING username]. *)
Definition delete_user (username : string) : M (list string) :=
  λ db,
    let '(t, rows) := delete_where Users.username username (users db) in
    (Ok (Users.username <$> rows), with_users t db).

(** [ORDER BY username]. *)
Definition by_username (a b : Users.row) : Prop :=
  collate_le (Users.username a) (Users.username b) = true.

#[global] Instance by_username_dec : RelDecision by_username.
Proof. intros a b. unfold by_username. apply _. Defined.

(** [SELECT ... FROM users ORDER BY username]. *)
Definition select_users : M (list Users.row) :=
  λ db, (Ok (merge_sort by_username (users db)), db).

(** [SELECT ... FROM jobs WHERE id = $1]. *)
Definition select_job (id : Z) : M (list Jobs.row) :=
  λ db, (Ok (matching Jobs.id id (jobs db)), db).

(** [SELECT ... FROM jobs j LEFT JOIN companies AS c ON c.handle =
    j.company_handle ${concatenatedFilters} ORDER BY c.name, j.title]. *)
Definition select_job_listings (filters : list Filter) (params : list Value)
  : M (list JobListing) :=
  λ db,
    (Ok (merge_sort by_company_then_title
           (where_ listing_value filters params
              (jobs db ≫= left_join_company (companies db)))), db).

(** [UPDATE jobs SET ${setCols} WHERE id = ${idVarIdx} RETURNING ...]. *)
Definition update_jobs (cols : list string) (idVarIdx : nat)
    (params : list Value) : M (list Jobs.row) :=
  λ db,
    match update_where Jobs.id as_int job_columns
            cols idVarIdx params (jobs db) with
    | Some (t, rows) => (Ok rows, with_jobs t db)
    | None => (Err QueryError, db)
    end.

(** [DELETE FROM jobs WHERE id = $1 RETURNING id]. *)
Definition delete_job (id : Z) : M (list Z) :=
  λ db,
    let '(t, rows) := delete_where Jobs.id id (jobs db) in
    (Ok (Jobs.id <$> rows), with_jobs t db).

(** [SELECT job_id FROM applications WHERE applications.username = $1]:
    the statement has no [ORDER BY], the rows come in the order the engine
    reads the table in. *)
Definition select_applications (username : string) : M (list Z) :=
  λ db,
    (Ok (Applications.job_id <$>
           filter (λ a, Applications.username a = username)
             (row_order (applications db))), db).

(** [INSERT INTO applications (job_id, username) VALUES ($1, $2)]: the row
    needs its job and its user. *)
Definition insert_application (job_id : Z) (username : string) : M unit :=
  λ db,
    if decide (matching Jobs.id job_id (jobs db) ≠ []
               ∧ matching Users.username username (users db) ≠ [])
    then (Ok (),
          with_applications
            (applications db
             ++ [ {| Applications.job_id := job_id;
                     Applications.username := username |} ]) db)
    else (Err QueryError, db).
End Statements.

End Db.

(** ** Filters of the list operations *)

(** An optional argument of [findAll] as the JavaScript value the method
    tests and binds: [undefined] when it is left out. *)
Definition text_arg (a : option string) : Value := from_option VText VNull a.
Definition int_arg (a : option Z) : Value := from_option VInt VNull a.
Definition bool_arg (a : option bool) : Value := from_option VBool VNull a.

(** [if (arg) { values.push(arg); filters.push(`... $${values.length} ...`) }]
    on the pair of arrays [(values, filters)]. *)
Definition push_filter (arg : Value) (fragment : nat → Filter)
    (arrays : list Value * list Filter) : list Value * list Filter :=
  let '(values, filters) := arrays in
  if truthy arg then
    let values := values ++ [arg] in
    (values, filters ++ [fragment (length values)])
  else (values, filters).

(** ** models/company.js *)

Module Company.

Definition jsToSql : Sql.NameMap :=
  {[ "numEmployees" := "num_employees"; "logoUrl" := "logo_url" ]}.

Definition findAll_filters (name : option string)
    (minEmployees maxEmployees : option Z) : list Value * list Filter :=
  let arrays := ([], []) in
  let arrays := push_filter (text_arg name) (ILike "name") arrays in
  let arrays :=
    push_filter (int_arg minEmployees) (Compare "num_employees" Gt) arrays in
  let arrays :=
    push_filter (int_arg maxEmployees) (Compare "num_employees" Lt) arrays in
  arrays.

Section Methods.
Context `{Externals}.

Definition create (data : Companies.row) : M Companies.row :=
  duplicateCheck ← Db.select_company (Companies.handle data);
  match duplicateCheck with
  | _ :: _ =>
      throw (BadRequestError ("Duplicate company: " +:+ Companies.handle data))
  | [] =>
      company ← Db.insert_company data;
      mret company
  end.

(** The statement sent is [company_findAll_sql] below, with [values]; the
    engine is handed its WHERE fragments. *)
Definition findAll (name : option string)
    (minEmployees maxEmployees : option Z) : M (list Companies.row) :=
  let '(values, filters) := findAll_filters name minEmployees maxEmployees in
  Db.select_companies filters values.

Definition get (handle : string) : M Companies.row :=
  companyRes ← Db.select_company handle;
  match companyRes with
  | company :: _ => mret company
  | [] => throw (NotFoundError ("No company: " +:+ handle))
  end.

Definition update (handle : string) (data : Sql.Data) : M Companies.row :=
  fragment ← lift (Sql.sqlForPartialUpdate data jsToSql);
  let values := Sql.values fragment in
  let handleVarIdx := (length values + 1)%nat in
  result ← Db.update_companies (Sql.column jsToSql <$> data.*1)
             handleVarIdx (values ++ [VText handle]);
  match result with
  | company :: _ => mret company
  | [] => throw (NotFoundError ("No company: " +:+ handle))
  end.

Definition remove (handle : string) : M unit :=
  result ← Db.delete_company handle;
  match result with
  | _ :: _ => mret ()
  | [] => throw (NotFoundError ("No company: " +:+ handle))
  end.
End Methods.

End Company.

(** ** models/user.js *)

Module User.

(** A user as the methods return it: the row without its password. *)
Record t : Type :=
  { username : string;
    firstName : string;
    lastName : string;
    email : string;
    isAdmin : bool }.

(** [delete user.password]. *)
Definition without_password (u : Users.row) : t :=
  {| username := Users.username u;
     firstName := Users.firstName u;
     lastName := Users.lastName u;
     email := Users.email u;
     isAdmin := Users.isAdmin u |}.

(** The data [register] takes. *)
Record NewUser : Type :=
  { new_username : string;
    new_password : string;
    new_firstName : string;
    new_lastName : string;
    new_email : string;
    new_isAdmin : bool }.

Definition jsToSql : Sql.NameMap :=
  {[ "firstName" := "first_name"; "lastName" := "last_name";
     "isAdmin" := "is_admin" ]}.

Section Methods.
Context `{Externals}.

Definition authenticate (username password : string) : M t :=
  result ← Db.select_user username;
  match result with
  | user :: _ =>
      if bcrypt_compare password (Users.password user)
      then mret (without_password user)
      else throw (UnauthorizedError "Invalid username/password")
  | [] => throw (UnauthorizedError "Invalid username/password")
  end.

(** [salt] is the salt [bcrypt.hash] draws. *)
Definition register (salt : string) (data : NewUser) : M t :=
  duplicateCheck ← Db.select_user (new_username data);
  match duplicateCheck with
  | _ :: _ =>
      throw (BadRequestError ("Duplicate username: " +:+ new_username data))
  | [] =>
      let hashedPassword := bcrypt_hash salt (new_password data) in
      user ← Db.insert_user
               {| Users.username := new_username data;
                  Users.password := hashedPassword;
                  Users.firstName := new_firstName data;
                  Users.lastName := new_lastName data;
                  Users.email := new_email data;
                  Users.isAdmin := new_isAdmin data |};
      mret (without_password user)
  end.

Definition findAll : M (list t) :=
  result ← Db.select_users;
  mret (without_password <$> result).

(** The user with the ids of the jobs applied to ([user.jobs]); the
    [console.log] of the ids is left out. *)
Definition get (username : string) : M (t * list Z) :=
  userRes ← Db.select_user username;
  match userRes with
  | user :: _ =>
      jobs ← Db.select_applications username;
      mret (without_password user, jobs)
  | [] => throw (NotFoundError ("No user: " +:+ username))
  end.

(** [if (data.password) data.password = await bcrypt.hash(data.password,
    BCRYPT_WORK_FACTOR)]: [bcrypt.hash] throws on data that is not a
    string. *)
Definition hash_password (salt : string) (data : Sql.Data)
  : result Sql.Data :=
  match assoc "password" data with
  | Some v =>
      if truthy v then
        match v with
        | VText p =>
            Ok ((λ kv, if String.eqb (fst kv) "password"
                       then (fst kv, VText (bcrypt_hash salt p)) else kv)
                  <$> data)
        | _ => Err BcryptError
        end
      else Ok data
  | None => Ok data
  end.

Definition update (salt : string) (username : string) (data : Sql.Data)
  : M t :=
  data ← lift (hash_password salt data);
  fragment ← lift (Sql.sqlForPartialUpdate data jsToSql);
  let values := Sql.values fragment in
  let usernameVarIdx := (length values + 1)%nat in
  result ← Db.update_users (Sql.column jsToSql <$> data.*1)
             usernameVarIdx (values ++ [VText username]);
  match result with
  | user :: _ => mret (without_password user)
  | [] => throw (NotFoundError ("No user: " +:+ username))
  end.

Definition remove (username : string) : M unit :=
  result ← Db.delete_user username;
  match result with
  | _ :: _ => mret ()
  | [] => throw (NotFoundError ("No user: " +:+ username))
  end.

Definition applyToJob (username : string) (jobId : Z) : M unit :=
  jobSearch ← Db.select_job jobId;
  match jobSearch with
  | [] =>
      throw (NotFoundError ("Job with id: " +:+ show_Z jobId +:+ " not found"))
  | _ :: _ =>
      userSearch ← Db.select_user username;
      match userSearch with
      | [] => throw (NotFoundError ("No username with id: " +:+ username))
      | _ :: _ => Db.insert_application jobId username
      end
  end.
End Methods.

End User.

(** ** models/job.js *)

Module Job.

(** A job as [get] returns it: [companyHandle] deleted, the company row
    attached ([undefined] when no company has that handle). *)
Record WithCompany : Type :=
  { id : Z;
    title : string;
    salary : option Z;
    equity : option Q;
    company : option Companies.row }.

Definition jsToSql : Sql.NameMap := ∅.

Definition findAll_filters (minSalary : option Z) (hasEquity : option bool)
    (title : option string) : list Value * list Filter :=
  let arrays := ([], []) in
  let arrays := push_filter (text_arg title) (ILike "title") arrays in
  let arrays := push_filter (int_arg minSalary) (Compare "salary" Ge) arrays in
  let arrays :=
    if truthy (bool_arg hasEquity)
    then (arrays.1, arrays.2 ++ [Positive "equity"])
    else arrays in
  arrays.

Section Methods.
Context `{Externals}.

(** The statement sent is [job_findAll_sql] below, with [values]; the
    engine is handed its WHERE fragments. *)
Definition findAll (minSalary : option Z) (hasEquity : option bool)
    (title : option string) : M (list Db.JobListing) :=
  let '(values, filters) := findAll_filters minSalary hasEquity title in
  Db.select_job_listings filters values.

Definition get (id : Z) : M WithCompany :=
  jobRes ← Db.select_job id;
  match jobRes with
  | job :: _ =>
      companyRes ← Db.select_company (Jobs.companyHandle job);
      mret {| id := Jobs.id job; title := Jobs.title job;
              salary := Jobs.salary job; equity := Jobs.equity job;
              company := head companyRes |}
  | [] => throw (NotFoundError ("No job with Id: " +:+ show_Z id))
  end.

Definition update (id : Z) (data : Sql.Data) : M Jobs.row :=
  fragment ← lift (Sql.sqlForPartialUpdate data jsToSql);
  let values := Sql.values fragment in
  let idVarIdx := (length values + 1)%nat in
  result ← Db.update_jobs (Sql.column jsToSql <$> data.*1)
             idVarIdx (values ++ [VInt id]);
  match result with
  | job :: _ => mret job
  | [] => throw (NotFoundError ("No job: " +:+ show_Z id))
  end.

Definition remove (id : Z) : M unit :=
  result ← Db.delete_job id;
  match result with
  | _ :: _ => mret ()
  | [] => throw (NotFoundError ("No job: " +:+ show_Z id))
  end.
End Methods.

End Job.

(** ** The text of the list queries *)

Definition nl : string := String (ascii_of_nat 10) EmptyString.

(** The text before [${concatenatedFilters}] in the template literal of
    [Company.findAll]. *)
Definition company_findAll_select : string :=
  "SELECT handle," +:+ nl +:+
  "            name," +:+ nl +:+
  "            description," +:+ nl +:+
  "            num_employees AS " +:+ dq +:+ "numEmployees" +:+ dq +:+ "," +:+ nl +:+
  "            logo_url AS " +:+ dq +:+ "logoUrl" +:+ dq +:+ nl +:+
  "     FROM companies" +:+ nl +:+
  "     ".

(** The first argument of [db.query] in [Company.findAll]. *)
Definition company_findAll_sql (name : option string)
    (minEmployees maxEmployees : option Z) : string :=
  let filters := (Company.findAll_filters name minEmployees maxEmployees).2 in
  company_findAll_select
  +:+ concatenatedFilters (filter_sql <$> filters) +:+ nl
  +:+ "     ORDER BY name".

(** The text before [${concatenatedFilters}] in the template literal of
    [Job.findAll]. *)
Definition job_findAll_select : string :=
  "SELECT j.id," +:+ nl +:+
  "            j.title," +:+ nl +:+
  "            j.salary," +:+ nl +:+
  "            j.equity," +:+ nl +:+
  "            j.company_handle AS " +:+ dq +:+ "companyHandle" +:+ dq +:+ "," +:+ nl +:+
  "            c.name AS " +:+ dq +:+ "companyName" +:+ dq +:+ nl +:+
  "            FROM jobs j " +:+ nl +:+
  "            LEFT JOIN companies AS c ON c.handle = j.company_handle" +:+ nl +:+
  "     ".

(** The first argument of [db.query] in [Job.findAll]. *)
Definition job_findAll_sql (minSalary : option Z) (hasEquity : option bool)
    (title : option string) : string :=
  let filters := (Job.findAll_filters minSalary hasEquity title).2 in
  job_findAll_select
  +:+ concatenatedFilters (filter_sql <$> filters) +:+ nl
  +:+ "     ORDER BY c.name, j.title".

(** ** A reference instance of the collaborators, and sample data *)

(** Byte order for the collation, a case-sensitive substring test for
    [ILIKE], a toy hash, and rows read in the order of insertion; the
    theorems below hold for every instance, this one runs them on
    examples. *)
Fixpoint is_prefix (p s : string) : bool :=
  match p, s with
  | EmptyString, _ => true
  | String a p', String b s' => Ascii.eqb a b && is_prefix p' s'
  | String _ _, EmptyString => false
  end.

Fixpoint contains (s p : string) : bool :=
  is_prefix p s ||
  match s with
  | EmptyString => false
  | String _ s' => contains s' p
  end.

Definition sample_externals : Externals :=
  {| collate_le := String.leb;
     ilike_contains := contains;
     bcrypt_hash := λ salt password, "hash:" +:+ password;
     bcrypt_compare := λ password hash, String.eqb hash ("hash:" +:+ password);
     row_order := λ rows, rows |}.

Definition acme : Companies.row :=
  {| Companies.handle := "acme"; Companies.name := "Acme";
     Companies.description := "Anvils"; Companies.numEmployees := Some 5%Z;
     Companies.logoUrl := None |}.

Definition bolt : Companies.row :=
  {| Companies.handle := "bolt"; Companies.name := "Bolt";
     Companies.description := "Fasteners"; Companies.numEmployees := None;
     Companies.logoUrl := None |}.

Definition ada : Users.row :=
  {| Users.username := "ada"; Users.password := "hash:secret";
     Users.firstName := "Ada"; Users.lastName := "L";
     Users.email := "ada@example.org"; Users.isAdmin := false |}.

Definition smith : Jobs.row :=
  {| Jobs.id := 1%Z; Jobs.title := "Smith"; Jobs.salary := Some 100%Z;
     Jobs.equity := None; Jobs.companyHandle := "acme" |}.

Definition sample_db : DB :=
  {| companies := [bolt; acme]; users := [ada]; jobs := [smith];
     applications := [] |}.

(** ** Definitions used to state the theorems *)

(** The row [User.register] inserts. *)
Definition registered `{Externals} (salt : string) (data : User.NewUser)
  : Users.row :=
  {| Users.username := User.new_username data;
     Users.password := bcrypt_hash salt (User.new_password data);
     Users.firstName := User.new_firstName data;
     Users.lastName := User.new_lastName data;
     Users.email := User.new_email data;
     Users.isAdmin := User.new_isAdmin data |}.

Section CompanyFilters.
Context `{Externals}.

(** What the three optional filters of [Company.findAll] ask of a row. *)
Definition name_filter (name : option string) (c : Companies.row) : Prop :=
  ∀ s, name = Some s → s ≠ "" → ilike_contains (Companies.name c) s = true.

Definition min_filter (minEmployees : option Z) (c : Companies.row) : Prop :=
  ∀ m, minEmployees = Some m → m ≠ 0 →
       ∃ n, Companies.numEmployees c = Some n ∧ m < n.

Definition max_filter (maxEmployees : option Z) (c : Companies.row) : Prop :=
  ∀ m, maxEmployees = Some m → m ≠ 0 →
       ∃ n, Companies.numEmployees c = Some n ∧ n < m.

(** The same three, as the engine evaluates them. *)
Definition name_ok (name : option string) (c : Companies.row) : bool :=
  match name with
  | Some s => if String.eqb s "" then true
              else ilike_contains (Companies.name c) s
  | None => true
  end.

Definition employees_ok (op : Cmp) (bound : option Z) (c : Companies.row)
  : bool :=
  match bound with
  | Some m =>
      if (m =? 0)%Z then true
      else match Companies.numEmployees c with
           | Some k => Db.compare_int op k m
           | None => false
           end
  | None => true
  end.
End CompanyFilters.

(** What the loop appends for the filters after the first. *)
Definition and_tail (filters : list string) : string :=
  foldr (λ filter rest, "AND " +:+ filter +:+ " " +:+ rest) "" filters.

Definition cog : Companies.row :=
  {| Companies.handle := "cog"; Companies.name := "Cog";
     Companies.description := "Gears"; Companies.numEmployees := Some 3%Z;
     Companies.logoUrl := None |}.

Definition cog_again : Companies.row :=
  {| Companies.handle := "cog"; Companies.name := "Cog Two";
     Companies.description := "More gears"; Companies.numEmployees := None;
     Companies.logoUrl := None |}.

(** ** Proof automation *)

Ltac run_method :=
  unfold mbind, M_bind, mret, M_ret, throw, lift.

Ltac by_evaluation := apply (bool_decide_unpack _); by vm_compute.

(** ** routes/users.js *)

(** The handlers of the users router, each as the function express calls
    once its middleware ([ensureAdmin], [ensureAdminOrSelf], not among the
    sources) has let the request through.  The handler of
    [POST /:username/jobs/:id] is left out: it converts the id with a unary
    plus, whose result on an arbitrary string is not modelled. *)
Module UsersRoutes.

(** What a handler can throw: an error of the model, or the
    [BadRequestError] it builds from the validator's messages. *)
Inductive Thrown : Type :=
  | Model (e : Error)
  | Invalid (errs : list string).

(** How a handler ends: [res.status(status).json(body)], or [next(err)]. *)
Inductive Reply (A : Type) : Type :=
  | Json (status : nat) (body : A)
  | Next (err : Thrown).
Arguments Json {A} status body.
Arguments Next {A} err.

(** The result of [jsonschema.validate]: [valid], and the [stack] of each
    error. *)
Record Validation : Type := { valid : bool; stacks : list string }.

(** The collaborators of the router: the validator applied to each of the
    two schemas, and [createToken]. *)
Class Web : Type :=
  { validate_userNew : User.NewUser → Validation;
    validate_userUpdate : Sql.Data → Validation;
    createToken : User.t → string }.

Section Handlers.
Context `{Externals} `{Web}.

(** [try { ... } catch (err) { return next(err) }] around a model call. *)
Definition reply {A B : Type} (body : A → B) (status : nat) (m : M A)
  : DB → Reply B * DB :=
  λ db,
    match m db with
    | (Ok a, db') => (Json status (body a), db')
    | (Err e, db') => (Next (Model e), db')
    end.

(** [POST /]: the body is the new user, the reply the user and a token. *)
Definition post (salt : string) (body : User.NewUser)
  : DB → Reply (User.t * string) * DB :=
  let validator := validate_userNew body in
  if negb (valid validator)
  then λ db, (Next (Invalid (stacks validator)), db)
  else reply (λ user, (user, createToken user)) 201 (User.register salt body).

(** [GET /]. *)
Definition get_all : DB → Reply (list User.t) * DB :=
  reply (λ users, users) 200 User.findAll.

(** [GET /:username]. *)
Definition get (username : string) : DB → Reply (User.t * list Z) * DB :=
  reply (λ user, user) 200 (User.get username).

(** [PATCH /:username]. *)
Definition patch (salt : string) (username : string) (body : Sql.Data)
  : DB → Reply User.t * DB :=
  let validator := validate_userUpdate body in
  if negb (valid validator)
  then λ db, (Next (Invalid (stacks validator)), db)
  else reply (λ user, user) 200 (User.update salt username body).

(** [DELETE /:username]: the reply is [{ deleted: username }]. *)
Definition delete (username : string) : DB → Reply string * DB :=
  reply (λ _, username) 200 (User.remove username).
End Handlers.

End UsersRoutes.

(** ** More definitions used to state theorems *)

(** The positional parameter a WHERE fragment names, if it names one. *)
Definition filter_param (f : Filter) : option nat :=
  match f with
  | ILike _ n => Some n
  | Compare _ _ n => Some n
  | Positive _ => None
  end.

(** A stored user with another password hash. *)
Definition with_password (hash : string) (u : Users.row) : Users.row :=
  {| Users.username := Users.username u; Users.password := hash;
     Users.firstName := Users.firstName u; Users.lastName := Users.lastName u;
     Users.email := Users.email u; Users.isAdmin := Users.isAdmin u |}.

(** The storage names of the columns of [jobs]. *)
Definition job_column_names : list string := fst <$> Db.job_columns.

Definition dee : User.NewUser :=
  {| User.new_username := "dee"; User.new_password := "pw";
     User.new_firstName := "Dee"; User.new_lastName := "D";
     User.new_email := "dee@example.org"; User.new_isAdmin := false |}.

(** A validator that asks for a password of a new user and for some field
    of an update, and a token that is the username. *)
Definition sample_web : UsersRoutes.Web :=
  {| UsersRoutes.validate_userNew := λ body,
       if String.eqb (User.new_password body) ""
       then {| UsersRoutes.valid := false;
               UsersRoutes.stacks := ["instance.password is too short"] |}
       else {| UsersRoutes.valid := true; UsersRoutes.stacks := [] |};
     UsersRoutes.validate_userUpdate := λ body,
       match body with
       | [] => {| UsersRoutes.valid := false;
                  UsersRoutes.stacks := ["instance has no property"] |}
       | _ :: _ => {| UsersRoutes.valid := true; UsersRoutes.stacks := [] |}
       end;
     UsersRoutes.createToken := User.username |}.

Ltac fragment_cases H :=
  repeat (apply elem_of_cons in H as [H|H]; [by simplify_eq|]);
  by apply not_elem_of_nil in H.

(** A second job, with equity, and a store that lists both jobs. *)
Definition welder : Jobs.row :=
  {| Jobs.id := 2%Z; Jobs.title := "Welder"; Jobs.salary := Some 80%Z;
     Jobs.equity := Some (1 # 10)%Q; Jobs.companyHandle := "bolt" |}.

Definition hiring_db : DB :=
  {| companies := [bolt; acme]; users := [ada]; jobs := [smith; welder];
     applications := [] |}.

(** ** Reading a SET clause back *)

(** Whether a name holds no double quote.  [sqlForPartialUpdate] puts each
    name between double quotes without escaping it, so only such a name is
    sure to be read by the engine as the one column it spells. *)
Fixpoint quote_free (name : string) : bool :=
  match name with
  | EmptyString => true
  | String a rest => negb (Ascii.eqb a (ascii_of_nat 34)) && quote_free rest
  end.

(** A text cut at its double quotes: the piece before the first one, and the
    pieces after each. *)
Fixpoint segments (text : string) : string * list string :=
  match text with
  | EmptyString => (EmptyString, [])
  | String a rest =>
      let '(piece, pieces) := segments rest in
      if Ascii.eqb a (ascii_of_nat 34) then (EmptyString, piece :: pieces)
      else (String a piece, pieces)
  end.

(** Every second piece, from the first on. *)
Fixpoint alternate (pieces : list string) : list string :=
  match pieces with
  | name :: _ :: rest => name :: alternate rest
  | _ => []
  end.

(** The names a text holds between double quotes, in order: the pieces
    between the first and the second quote, the third and the fourth, and
    so on. *)
Definition quoted_names (text : string) : list string :=
  alternate (segments text).2.

(** * Theorems *)

(** ** The fragment builder *)

Lemma sqlForPartialUpdate_cons (kv : string * Value) (data : Sql.Data)
    (jsToSql : Sql.NameMap) :
  Sql.sqlForPartialUpdate (kv :: data) jsToSql
  = Ok {| Sql.setCols := join ", " (Sql.cols jsToSql ((kv :: data).*1));
          Sql.values := (kv :: data).*2 |}.
Proof. reflexivity. Qed.

Lemma cols_lookup (jsToSql : Sql.NameMap) (data : Sql.Data) (i : nat)
    (k : string) (v : Value) :
  data !! i = Some (k, v) →
  Sql.cols jsToSql (data.*1) !! i
  = Some (dq +:+ Sql.column jsToSql k +:+ dq +:+ "=$" +:+ show_nat (S i)).
Proof.
  intros Hi. unfold Sql.cols.
  rewrite list_lookup_imap, list_lookup_fmap, Hi. simpl.
  unfold Sql.assignment. by rewrite Nat.add_1_r.
Qed.

Lemma cols_set_sql (jsToSql : Sql.NameMap) (keys : list string) :
  join ", " (Sql.cols jsToSql keys) = set_sql (Sql.column jsToSql <$> keys).
Proof. unfold set_sql, Sql.cols. by rewrite imap_fmap. Qed.

(** The fragment [update] sends is the SET clause over the columns it hands
    the engine, with the values in the same order. *)
Lemma setCols_set_sql (data : Sql.Data) (jsToSql : Sql.NameMap)
    (fragment : Sql.Fragment) :
  Sql.sqlForPartialUpdate data jsToSql = Ok fragment →
  Sql.setCols fragment = set_sql (Sql.column jsToSql <$> data.*1)
  ∧ Sql.values fragment = data.*2.
Proof.
  destruct data as [|kv data]; [done|].
  rewrite sqlForPartialUpdate_cons. intros Hfragment.
  assert (fragment
          = {| Sql.setCols := join ", " (Sql.cols jsToSql ((kv :: data).*1));
               Sql.values := (kv :: data).*2 |}) as -> by congruence.
  split; [apply cols_set_sql|done].
Qed.

Example show_nat_decimal : show_nat 12 = "12" ∧ show_Z (-7) = "-7".
Proof. by vm_compute. Qed.

(** C9: an empty data mapping makes the builder throw
    [BadRequestError], whatever the name mapping; it is the only data the
    builder throws on. *)
Theorem sqlForPartialUpdate_no_data (jsToSql : Sql.NameMap) :
  Sql.sqlForPartialUpdate [] jsToSql = Err (BadRequestError "No data")
  ∧ ∀ (data : Sql.Data) (e : Error),
      Sql.sqlForPartialUpdate data jsToSql = Err e ↔
      data = [] ∧ e = BadRequestError "No data".
Proof.
  split; [reflexivity|].
  intros [|kv data] e.
  - split; [by intros [= <-]|by intros [_ ->]].
  - rewrite sqlForPartialUpdate_cons. split; [done|by intros [? _]].
Qed.

(** C1: for a non-empty data mapping the builder returns the assignments
    joined by [", "], one per key, the one at position [i] (from 0) naming
    the placeholder [$(i+1)], and the values of the mapping in the same
    order. *)
Theorem sqlForPartialUpdate_one_assignment_per_key (data : Sql.Data)
    (jsToSql : Sql.NameMap) :
  data ≠ [] →
  ∃ assignments : list string,
    Sql.sqlForPartialUpdate data jsToSql
    = Ok {| Sql.setCols := join ", " assignments; Sql.values := data.*2 |}
    ∧ length assignments = length data
    ∧ ∀ i k v, data !! i = Some (k, v) →
        assignments !! i
        = Some (dq +:+ Sql.column jsToSql k +:+ dq +:+ "=$" +:+ show_nat (S i))
        ∧ data.*2 !! i = Some v.
Proof.
  intros Hne. destruct data as [|kv data]; [done|].
  exists (Sql.cols jsToSql ((kv :: data).*1)). split_and!.
  - apply sqlForPartialUpdate_cons.
  - unfold Sql.cols. by rewrite length_imap, length_fmap.
  - intros i k v Hi. split.
    + by apply cols_lookup with v.
    + by rewrite list_lookup_fmap, Hi.
Qed.

Lemma sqlForPartialUpdate_one_assignment_per_key_witness :
  ∃ assignments : list string,
    Sql.sqlForPartialUpdate [("firstName", VText "Aliya"); ("age", VInt 32)]
      {[ "firstName" := "first_name" ]}
    = Ok {| Sql.setCols := join ", " assignments;
            Sql.values := [VText "Aliya"; VInt 32] |}
    ∧ length assignments = 2%nat
    ∧ ∀ i k v,
        [("firstName", VText "Aliya"); ("age", VInt 32)] !! i = Some (k, v) →
        assignments !! i
        = Some (dq +:+ Sql.column {[ "firstName" := "first_name" ]} k +:+ dq
                +:+ "=$" +:+ show_nat (S i))
        ∧ [VText "Aliya"; VInt 32] !! i = Some v.
Proof.
  apply (sqlForPartialUpdate_one_assignment_per_key
           [("firstName", VText "Aliya"); ("age", VInt 32)]
           {[ "firstName" := "first_name" ]}).
  discriminate.
Defined.

Lemma column_mapped (jsToSql : Sql.NameMap) (k sqlName : string) :
  jsToSql !! k = Some sqlName → sqlName ≠ "" → Sql.column jsToSql k = sqlName.
Proof.
  intros Hk Hne. unfold Sql.column. rewrite Hk.
  destruct (String.eqb_spec sqlName ""); congruence.
Qed.

Lemma column_own_name (jsToSql : Sql.NameMap) (k : string) :
  jsToSql !! k = Some "" ∨ (jsToSql !! k = None ∧ Sql.inherited k = None) →
  Sql.column jsToSql k = k.
Proof.
  unfold Sql.column. intros [Hk|[Hk Hi]]; rewrite Hk; [done|]. by rewrite Hi.
Qed.

(** C3, amended: the assignment of a field uses the mapped storage name when
    the name mapping gives the field a name that is not the empty string; it
    uses the field's own name when the mapping gives it the empty string, or
    has no entry for it and the field is not one of the names every object
    inherits.  The documented example yields the documented fragment. *)
Theorem sqlForPartialUpdate_column_names :
  (∀ (jsToSql : Sql.NameMap) (data : Sql.Data) (i : nat) (k : string)
     (v : Value),
     data !! i = Some (k, v) →
     ∃ fragment,
       Sql.sqlForPartialUpdate data jsToSql = Ok fragment
       ∧ Sql.setCols fragment = join ", " (Sql.cols jsToSql (data.*1))
       ∧ (∀ sqlName, jsToSql !! k = Some sqlName → sqlName ≠ "" →
            Sql.cols jsToSql (data.*1) !! i
            = Some (dq +:+ sqlName +:+ dq +:+ "=$" +:+ show_nat (S i)))
       ∧ (jsToSql !! k = Some ""
          ∨ (jsToSql !! k = None ∧ Sql.inherited k = None) →
            Sql.cols jsToSql (data.*1) !! i
            = Some (dq +:+ k +:+ dq +:+ "=$" +:+ show_nat (S i))))
  ∧ Sql.sqlForPartialUpdate
      [("firstName", VText "Aliya"); ("age", VInt 32)]
      {[ "firstName" := "first_name" ]}
    = Ok {| Sql.setCols := dq +:+ "first_name" +:+ dq +:+ "=$1, "
                           +:+ dq +:+ "age" +:+ dq +:+ "=$2";
            Sql.values := [VText "Aliya"; VInt 32] |}.
Proof.
  split; [|by vm_compute].
  intros jsToSql data i k v Hi.
  destruct data as [|kv data]; [done|].
  eexists. split; [apply sqlForPartialUpdate_cons|]. split; [done|].
  pose proof (cols_lookup jsToSql _ _ _ _ Hi) as Hcol. split.
  - intros sqlName Hk Hne. by rewrite Hcol, (column_mapped _ _ _ Hk Hne).
  - intros Hk. by rewrite Hcol, (column_own_name _ _ Hk).
Qed.

Lemma sqlForPartialUpdate_column_names_witness :
  ∃ fragment,
    Sql.sqlForPartialUpdate [("firstName", VText "Aliya"); ("age", VInt 32)]
      {[ "firstName" := "first_name" ]} = Ok fragment
    ∧ Sql.cols {[ "firstName" := "first_name" ]} ["firstName"; "age"] !! 0%nat
      = Some (dq +:+ "first_name" +:+ dq +:+ "=$" +:+ show_nat 1).
Proof.
  destruct (proj1 sqlForPartialUpdate_column_names
              {[ "firstName" := "first_name" ]}
              [("firstName", VText "Aliya"); ("age", VInt 32)]
              0%nat "firstName" (VText "Aliya") eq_refl)
    as (fragment & Hfragment & _ & Hmapped & _).
  exists fragment. split; [exact Hfragment|].
  apply Hmapped; [reflexivity|discriminate].
Defined.

(** C3 as it is worded fails twice.  A field that is in the name mapping,
    mapped to the empty string, keeps its own name; a field that is not in
    the name mapping but names a property every object inherits gets the
    text of that property. *)
Lemma sqlForPartialUpdate_column_names_counterexample :
  (({[ "a" := "" ]} : Sql.NameMap) !! "a" = Some ""
   ∧ Sql.spec_column {[ "a" := "" ]} "a" = ""
   ∧ Sql.sqlForPartialUpdate [("a", VInt 1)] {[ "a" := "" ]}
     = Ok {| Sql.setCols := dq +:+ "a" +:+ dq +:+ "=$1";
             Sql.values := [VInt 1] |}
   ∧ Sql.column {[ "a" := "" ]} "a" ≠ Sql.spec_column {[ "a" := "" ]} "a")
  ∧ ((∅ : Sql.NameMap) !! "constructor" = None
     ∧ Sql.spec_column ∅ "constructor" = "constructor"
     ∧ Sql.sqlForPartialUpdate [("constructor", VInt 1)] ∅
       = Ok {| Sql.setCols :=
                 dq +:+ "function Object() { [native code] }" +:+ dq +:+ "=$1";
               Sql.values := [VInt 1] |}
     ∧ Sql.column ∅ "constructor" ≠ Sql.spec_column ∅ "constructor").
Proof. by vm_compute. Qed.

(** ** Tables *)

Section TableFacts.
Context {R K : Type} `{EqDecision K}.
Variable key : R → K.
Variable key_of_value : Value → option K.
Variable columns : list (string * (Value → option (R → R))).

Lemma matching_absent (k : K) (t : list R) :
  k ∉ key <$> t → Db.matching key k t = [].
Proof.
  intros Hk. unfold Db.matching. induction t as [|r t IH]; [done|].
  rewrite fmap_cons, not_elem_of_cons in Hk. destruct Hk as [Hr Ht].
  rewrite filter_cons_False by congruence. auto.
Qed.

Lemma matching_present (k : K) (t : list R) :
  k ∈ key <$> t → ∃ r rows, Db.matching key k t = r :: rows ∧ key r = k.
Proof.
  intros (r & -> & Hr)%list_elem_of_fmap.
  assert (r ∈ Db.matching key (key r) t) as Hin
    by (by apply list_elem_of_filter).
  destruct (Db.matching key (key r) t) as [|r' rows] eqn:Hm.
  - by apply not_elem_of_nil in Hin.
  - exists r', rows. split; [done|].
    assert (r' ∈ Db.matching key (key r) t) as Hr'
      by (rewrite Hm; left).
    by apply list_elem_of_filter in Hr' as [? _].
Qed.

Lemma matching_elem_of (k : K) (r : R) (t : list R) :
  r ∈ Db.matching key k t ↔ key r = k ∧ r ∈ t.
Proof. unfold Db.matching. by rewrite list_elem_of_filter. Qed.

Lemma delete_where_absent (k : K) (t : list R) :
  k ∉ key <$> t → Db.delete_where key k t = (t, []).
Proof.
  intros Hk. unfold Db.delete_where. rewrite (matching_absent _ _ Hk).
  f_equal. induction t as [|r t IH]; [done|].
  rewrite fmap_cons, not_elem_of_cons in Hk. destruct Hk as [Hr Ht].
  rewrite filter_cons_True by congruence. f_equal. auto.
Qed.

Lemma untouched_absent (f : R → R) (k : K) (t : list R) :
  k ∉ key <$> t → (λ r, if decide (key r = k) then f r else r) <$> t = t.
Proof.
  intros Hk. induction t as [|r t IH]; [done|].
  rewrite fmap_cons, not_elem_of_cons in Hk. destruct Hk as [Hr Ht].
  rewrite fmap_cons. rewrite decide_False by congruence. f_equal. auto.
Qed.

(** An update whose key no row has returns no row and leaves the table as
    it is, when the engine runs it at all. *)
Lemma update_where_absent (cols : list string) (key_idx : nat)
    (params : list Value) (v : Value) (k : K) (t t' rows : list R) :
  param params key_idx = Some v → key_of_value v = Some k →
  k ∉ key <$> t →
  Db.update_where key key_of_value columns cols key_idx params t
  = Some (t', rows) →
  t' = t ∧ rows = [].
Proof.
  intros Hv Hkey Hk. unfold Db.update_where.
  case_decide; [|done].
  destruct (Db.set_clause columns cols 1 params) as [f|]; [|done]. simpl.
  rewrite Hv. simpl. rewrite Hkey. simpl.
  rewrite (matching_absent _ _ Hk), (untouched_absent _ _ _ Hk).
  case_decide; [|done]. by intros [= <- <-].
Qed.

Lemma update_where_accepted (cols : list string) (key_idx : nat)
    (params : list Value) (v : Value) (k : K) (t : list R) :
  Db.accepts columns cols params →
  param params key_idx = Some v → key_of_value v = Some k →
  k ∉ key <$> t →
  Db.update_where key key_of_value columns cols key_idx params t
  = Some (t, []).
Proof.
  intros [Hnodup [f Hf]] Hv Hkey Hk. unfold Db.update_where.
  rewrite decide_True by done. rewrite Hf. simpl.
  rewrite Hv. simpl. rewrite Hkey. simpl.
  rewrite (matching_absent _ _ Hk), (untouched_absent _ _ _ Hk).
  rewrite decide_True by auto. done.
Qed.
End TableFacts.

Lemma param_last (values : list Value) (v : Value) :
  param (values ++ [v]) (length values + 1) = Some v.
Proof.
  rewrite Nat.add_1_r. simpl. by rewrite list_lookup_middle.
Qed.

Lemma with_companies_same (db : DB) : Db.with_companies (companies db) db = db.
Proof. by destruct db. Qed.
Lemma with_users_same (db : DB) : Db.with_users (users db) db = db.
Proof. by destruct db. Qed.
Lemma with_jobs_same (db : DB) : Db.with_jobs (jobs db) db = db.
Proof. by destruct db. Qed.

(** ** Operations on a key no row has *)


Section Absent.
Context `{Externals}.
Variable db : DB.

Section AbsentCompany.
Variable handle : string.
Hypothesis absent : handle ∉ Companies.handle <$> companies db.

Lemma company_get_absent :
  Company.get handle db
  = (Err (NotFoundError ("No company: " +:+ handle)), db).
Proof.
  unfold Company.get, Db.select_company. run_method.
  by rewrite (matching_absent _ _ _ absent).
Qed.

Lemma company_remove_absent :
  Company.remove handle db
  = (Err (NotFoundError ("No company: " +:+ handle)), db).
Proof.
  unfold Company.remove, Db.delete_company. run_method.
  rewrite (delete_where_absent _ _ _ absent). simpl.
  by rewrite with_companies_same.
Qed.

Lemma company_update_absent (data : Sql.Data) :
  data ≠ [] →
  Db.accepts Db.company_columns
    (Sql.column Company.jsToSql <$> data.*1) (data.*2 ++ [VText handle]) →
  Company.update handle data db
  = (Err (NotFoundError ("No company: " +:+ handle)), db).
Proof.
  intros Hne Hacc. destruct data as [|kv data]; [done|].
  unfold Company.update, Db.update_companies. run_method.
  rewrite sqlForPartialUpdate_cons. cbn [Sql.values].
  rewrite (update_where_accepted Companies.handle as_text _ _ _ _
             (VText handle) handle _ Hacc (param_last _ _) eq_refl absent).
  by rewrite with_companies_same.
Qed.

Lemma company_update_absent_store (data : Sql.Data) :
  (Company.update handle data db).2 = db.
Proof.
  destruct data as [|kv data]; [done|].
  unfold Company.update, Db.update_companies. run_method.
  rewrite sqlForPartialUpdate_cons. cbn [Sql.values].
  destruct (Db.update_where _ _ _ _ _ _ _) as [[t rows]|] eqn:Hup; [|done].
  apply (update_where_absent Companies.handle as_text _ _ _ _
           (VText handle) handle) in Hup
    as [-> ->]; [|apply param_last|done|exact absent].
  simpl. by rewrite with_companies_same.
Qed.
End AbsentCompany.

Section AbsentUser.
Variable username : string.
Hypothesis absent : username ∉ Users.username <$> users db.

Lemma user_get_absent :
  User.get username db
  = (Err (NotFoundError ("No user: " +:+ username)), db).
Proof.
  unfold User.get, Db.select_user. run_method.
  by rewrite (matching_absent _ _ _ absent).
Qed.

Lemma user_remove_absent :
  User.remove username db
  = (Err (NotFoundError ("No user: " +:+ username)), db).
Proof.
  unfold User.remove, Db.delete_user. run_method.
  rewrite (delete_where_absent _ _ _ absent). simpl.
  by rewrite with_users_same.
Qed.

Lemma hash_password_nonempty (salt : string) (data data' : Sql.Data) :
  User.hash_password salt data = Ok data' → data ≠ [] → data' ≠ [].
Proof.
  unfold User.hash_password. intros Hhash Hne.
  destruct data as [|kv data]; [done|].
  destruct (assoc "password" (kv :: data)) as [v|]; [|congruence].
  destruct (truthy v); [|congruence].
  destruct v; try done. by injection Hhash as <-.
Qed.

Lemma user_update_absent (salt : string) (data data' : Sql.Data) :
  data ≠ [] →
  User.hash_password salt data = Ok data' →
  Db.accepts Db.user_columns
    (Sql.column User.jsToSql <$> data'.*1) (data'.*2 ++ [VText username]) →
  User.update salt username data db
  = (Err (NotFoundError ("No user: " +:+ username)), db).
Proof.
  intros Hne Hhash Hacc.
  pose proof (hash_password_nonempty _ _ _ Hhash Hne) as Hne'.
  destruct data' as [|kv data']; [done|].
  unfold User.update, Db.update_users. run_method. rewrite Hhash.
  rewrite sqlForPartialUpdate_cons. cbn [Sql.values].
  rewrite (update_where_accepted Users.username as_text _ _ _ _
             (VText username) username _ Hacc (param_last _ _) eq_refl
             absent).
  by rewrite with_users_same.
Qed.

Lemma user_update_absent_store (salt : string) (data : Sql.Data) :
  (User.update salt username data db).2 = db.
Proof.
  unfold User.update, Db.update_users. run_method.
  destruct (User.hash_password salt data) as [[|kv data']|]; [done| |done].
  rewrite sqlForPartialUpdate_cons. cbn [Sql.values].
  destruct (Db.update_where _ _ _ _ _ _ _) as [[t rows]|] eqn:Hup; [|done].
  apply (update_where_absent Users.username as_text _ _ _ _
           (VText username) username) in Hup
    as [-> ->]; [|apply param_last|done|exact absent].
  simpl. by rewrite with_users_same.
Qed.
End AbsentUser.

Section AbsentJob.
Variable id : Z.
Hypothesis absent : id ∉ Jobs.id <$> jobs db.

Lemma job_get_absent :
  Job.get id db = (Err (NotFoundError ("No job with Id: " +:+ show_Z id)), db).
Proof.
  unfold Job.get, Db.select_job. run_method.
  by rewrite (matching_absent _ _ _ absent).
Qed.

Lemma job_remove_absent :
  Job.remove id db = (Err (NotFoundError ("No job: " +:+ show_Z id)), db).
Proof.
  unfold Job.remove, Db.delete_job. run_method.
  rewrite (delete_where_absent _ _ _ absent). simpl.
  by rewrite with_jobs_same.
Qed.

Lemma job_update_absent (data : Sql.Data) :
  data ≠ [] →
  Db.accepts Db.job_columns
    (Sql.column Job.jsToSql <$> data.*1) (data.*2 ++ [VInt id]) →
  Job.update id data db
  = (Err (NotFoundError ("No job: " +:+ show_Z id)), db).
Proof.
  intros Hne Hacc. destruct data as [|kv data]; [done|].
  unfold Job.update, Db.update_jobs. run_method.
  rewrite sqlForPartialUpdate_cons. cbn [Sql.values].
  rewrite (update_where_accepted Jobs.id as_int _ _ _ _
             (VInt id) id _ Hacc (param_last _ _) eq_refl absent).
  by rewrite with_jobs_same.
Qed.

Lemma job_update_absent_store (data : Sql.Data) :
  (Job.update id data db).2 = db.
Proof.
  destruct data as [|kv data]; [done|].
  unfold Job.update, Db.update_jobs. run_method.
  rewrite sqlForPartialUpdate_cons. cbn [Sql.values].
  destruct (Db.update_where _ _ _ _ _ _ _) as [[t rows]|] eqn:Hup; [|done].
  apply (update_where_absent Jobs.id as_int _ _ _ _ (VInt id) id) in Hup
    as [-> ->]; [|apply param_last|done|exact absent].
  simpl. by rewrite with_jobs_same.
Qed.
End AbsentJob.
End Absent.

(** C4, amended: on a key no row has, [get] and [remove] of each model
    throw [NotFoundError]; so does [update] when the data is not empty and
    makes a SET clause the store runs (and, for a user, a password it holds
    is one [bcrypt] hashes); [update] with empty data throws
    [BadRequestError]; none of them changes the store. *)
Theorem absent_key_not_found `{Externals} (db : DB) :
  (∀ handle : string,
     handle ∉ Companies.handle <$> companies db →
     Company.get handle db
     = (Err (NotFoundError ("No company: " +:+ handle)), db)
     ∧ Company.remove handle db
       = (Err (NotFoundError ("No company: " +:+ handle)), db)
     ∧ Company.update handle [] db = (Err (BadRequestError "No data"), db)
     ∧ (∀ data : Sql.Data,
          data ≠ [] →
          Db.accepts Db.company_columns
            (Sql.column Company.jsToSql <$> data.*1)
            (data.*2 ++ [VText handle]) →
          Company.update handle data db
          = (Err (NotFoundError ("No company: " +:+ handle)), db))
     ∧ (∀ data : Sql.Data, (Company.update handle data db).2 = db))
  ∧ (∀ username : string,
       username ∉ Users.username <$> users db →
       User.get username db
       = (Err (NotFoundError ("No user: " +:+ username)), db)
       ∧ User.remove username db
         = (Err (NotFoundError ("No user: " +:+ username)), db)
       ∧ (∀ salt, User.update salt username [] db
                  = (Err (BadRequestError "No data"), db))
       ∧ (∀ (salt : string) (data data' : Sql.Data),
            data ≠ [] →
            User.hash_password salt data = Ok data' →
            Db.accepts Db.user_columns
              (Sql.column User.jsToSql <$> data'.*1)
              (data'.*2 ++ [VText username]) →
            User.update salt username data db
            = (Err (NotFoundError ("No user: " +:+ username)), db))
       ∧ (∀ (salt : string) (data : Sql.Data),
            (User.update salt username data db).2 = db))
  ∧ (∀ id : Z,
       id ∉ Jobs.id <$> jobs db →
       Job.get id db
       = (Err (NotFoundError ("No job with Id: " +:+ show_Z id)), db)
       ∧ Job.remove id db
         = (Err (NotFoundError ("No job: " +:+ show_Z id)), db)
       ∧ Job.update id [] db = (Err (BadRequestError "No data"), db)
       ∧ (∀ data : Sql.Data,
            data ≠ [] →
            Db.accepts Db.job_columns
              (Sql.column Job.jsToSql <$> data.*1) (data.*2 ++ [VInt id]) →
            Job.update id data db
            = (Err (NotFoundError ("No job: " +:+ show_Z id)), db))
       ∧ (∀ data : Sql.Data, (Job.update id data db).2 = db)).
Proof.
  split_and!.
  - intros handle Habsent. split_and!;
      eauto using company_get_absent, company_remove_absent,
        company_update_absent, company_update_absent_store.
  - intros username Habsent. split_and!;
      eauto using user_get_absent, user_remove_absent, user_update_absent,
        user_update_absent_store.
  - intros id Habsent. split_and!;
      eauto using job_get_absent, job_remove_absent, job_update_absent,
        job_update_absent_store.
Qed.


Lemma absent_key_not_found_witness :
  Company.get "nope" sample_db
  = (Err (NotFoundError "No company: nope"), sample_db)
  ∧ Company.update "nope" [("numEmployees", VInt 7)] sample_db
    = (Err (NotFoundError "No company: nope"), sample_db)
  ∧ User.remove "nobody" sample_db
    = (Err (NotFoundError "No user: nobody"), sample_db)
  ∧ Job.update 7 [("title", VText "Welder")] sample_db
    = (Err (NotFoundError "No job: 7"), sample_db).
Proof.
  destruct (@absent_key_not_found sample_externals sample_db)
    as (Hcompany & Huser & Hjob).
  destruct (Hcompany "nope") as (Hget & _ & _ & Hupdate & _);
    [by_evaluation|].
  destruct (Huser "nobody") as (_ & Hremove & _); [by_evaluation|].
  destruct (Hjob 7) as (_ & _ & _ & Hjupdate & _); [by_evaluation|].
  split_and!.
  - exact Hget.
  - apply (Hupdate [("numEmployees", VInt 7)]); [discriminate|].
    split; by_evaluation.
  - exact Hremove.
  - apply (Hjupdate [("title", VText "Welder")]); [discriminate|].
    split; by_evaluation.
Defined.

(** C4 as it is worded fails: with empty data [update] throws
    [BadRequestError] before any statement is sent, and data that names a
    field the table has no column for makes [db.query] throw. *)
Lemma absent_key_not_found_counterexample :
  ("nope" ∉ Companies.handle <$> companies sample_db)
  ∧ Company.update "nope" [] sample_db
    = (Err (BadRequestError "No data"), sample_db)
  ∧ (∀ message,
       (Company.update "nope" [] sample_db).1 ≠ Err (NotFoundError message))
  ∧ (7 ∉ Jobs.id <$> jobs sample_db)
  ∧ Job.update 7 [("companyHandle", VText "acme")] sample_db
    = (Err QueryError, sample_db)
  ∧ (∀ message,
       (Job.update 7 [("companyHandle", VText "acme")] sample_db).1
       ≠ Err (NotFoundError message)).
Proof.
  split_and!; [by_evaluation|done|done|by_evaluation|by vm_compute|].
  intros message. by vm_compute.
Qed.

(** ** Applying to a job *)

Lemma select_job_present (db : DB) (jobId : Z) :
  jobId ∈ Jobs.id <$> jobs db →
  ∃ job rows, Db.matching Jobs.id jobId (jobs db) = job :: rows.
Proof. intros (job & rows & Hm & _)%matching_present. eauto. Qed.

Lemma select_user_present (db : DB) (username : string) :
  username ∈ Users.username <$> users db →
  ∃ user rows, Db.matching Users.username username (users db) = user :: rows.
Proof. intros (user & rows & Hm & _)%matching_present. eauto. Qed.

Lemma applyToJob_no_job (db : DB) (username : string) (jobId : Z) :
  jobId ∉ Jobs.id <$> jobs db →
  User.applyToJob username jobId db
  = (Err (NotFoundError ("Job with id: " +:+ show_Z jobId +:+ " not found")),
     db).
Proof.
  intros Hjob. unfold User.applyToJob, Db.select_job. run_method.
  by rewrite (matching_absent _ _ _ Hjob).
Qed.

Lemma applyToJob_no_user (db : DB) (username : string) (jobId : Z) :
  jobId ∈ Jobs.id <$> jobs db →
  username ∉ Users.username <$> users db →
  User.applyToJob username jobId db
  = (Err (NotFoundError ("No username with id: " +:+ username)), db).
Proof.
  intros (job & rows & Hjob)%select_job_present Huser.
  unfold User.applyToJob, Db.select_job, Db.select_user. run_method.
  by rewrite Hjob, (matching_absent _ _ _ Huser).
Qed.

(** With the job and the user in the store, the method is its INSERT. *)
Lemma applyToJob_reaches_insert (db : DB) (username : string) (jobId : Z) :
  jobId ∈ Jobs.id <$> jobs db →
  username ∈ Users.username <$> users db →
  User.applyToJob username jobId db
  = Db.insert_application jobId username db.
Proof.
  intros (job & rows & Hjob)%select_job_present
         (user & rows' & Huser)%select_user_present.
  unfold User.applyToJob, Db.select_job, Db.select_user. run_method.
  by rewrite Hjob, Huser.
Qed.

Lemma insert_application_present (db : DB) (username : string) (jobId : Z) :
  jobId ∈ Jobs.id <$> jobs db →
  username ∈ Users.username <$> users db →
  Db.insert_application jobId username db
  = (Ok (),
     Db.with_applications
       (applications db
        ++ [ {| Applications.job_id := jobId;
                Applications.username := username |} ]) db).
Proof.
  intros (job & rows & Hjob)%select_job_present
         (user & rows' & Huser)%select_user_present.
  unfold Db.insert_application. by rewrite Hjob, Huser, decide_True.
Qed.

(** C5: [applyToJob] throws [NotFoundError] when no job has the id, and
    when a job has it but no user has the username; with both in the store
    it adds one application row for the pair, at the end of the table, and
    changes nothing else. *)
Theorem applyToJob_outcome (db : DB) (username : string) (jobId : Z) :
  (jobId ∉ Jobs.id <$> jobs db →
   User.applyToJob username jobId db
   = (Err (NotFoundError ("Job with id: " +:+ show_Z jobId +:+ " not found")),
      db))
  ∧ (jobId ∈ Jobs.id <$> jobs db →
     username ∉ Users.username <$> users db →
     User.applyToJob username jobId db
     = (Err (NotFoundError ("No username with id: " +:+ username)), db))
  ∧ (jobId ∈ Jobs.id <$> jobs db →
     username ∈ Users.username <$> users db →
     User.applyToJob username jobId db
     = (Ok (),
        {| companies := companies db; users := users db; jobs := jobs db;
           applications :=
             applications db
             ++ [ {| Applications.job_id := jobId;
                     Applications.username := username |} ] |})).
Proof.
  split_and!.
  - apply applyToJob_no_job.
  - apply applyToJob_no_user.
  - intros Hjob Huser.
    by rewrite applyToJob_reaches_insert, insert_application_present.
Qed.

Lemma applyToJob_outcome_witness :
  User.applyToJob "ada" 1 sample_db
  = (Ok (),
     {| companies := [bolt; acme]; users := [ada]; jobs := [smith];
        applications :=
          [ {| Applications.job_id := 1; Applications.username := "ada" |} ]
     |})
  ∧ User.applyToJob "ada" 2 sample_db
    = (Err (NotFoundError "Job with id: 2 not found"), sample_db)
  ∧ User.applyToJob "bob" 1 sample_db
    = (Err (NotFoundError "No username with id: bob"), sample_db).
Proof.
  split_and!.
  - apply (applyToJob_outcome sample_db "ada" 1); by_evaluation.
  - apply (applyToJob_outcome sample_db "ada" 2); by_evaluation.
  - apply (applyToJob_outcome sample_db "bob" 1); by_evaluation.
Defined.

Lemma applyToJob_not_bad_request (db : DB) (username : string) (jobId : Z)
    (message : string) :
  (User.applyToJob username jobId db).1 ≠ Err (BadRequestError message).
Proof.
  unfold User.applyToJob, Db.select_job, Db.select_user,
    Db.insert_application. run_method.
  destruct (Db.matching Jobs.id jobId (jobs db)); [done|].
  destruct (Db.matching Users.username username (users db)); [done|].
  by case_decide.
Qed.

(** C10: [applyToJob] has no check for an application already made: with
    the job and the user in the store a first call succeeds, and a second
    call for the same pair passes both existence checks again and is its
    INSERT; no call ever throws [BadRequestError]. *)
Theorem applyToJob_repeated (db : DB) (username : string) (jobId : Z) :
  jobId ∈ Jobs.id <$> jobs db →
  username ∈ Users.username <$> users db →
  ∃ db1,
    User.applyToJob username jobId db = (Ok (), db1)
    ∧ User.applyToJob username jobId db1
      = Db.insert_application jobId username db1
    ∧ ∀ (db' : DB) (username' : string) (jobId' : Z) (message : string),
        (User.applyToJob username' jobId' db').1
        ≠ Err (BadRequestError message).
Proof.
  intros Hjob Huser. eexists. split_and!.
  - by rewrite applyToJob_reaches_insert, insert_application_present.
  - by apply applyToJob_reaches_insert.
  - apply applyToJob_not_bad_request.
Qed.

Lemma applyToJob_repeated_witness :
  ∃ db1,
    User.applyToJob "ada" 1 sample_db = (Ok (), db1)
    ∧ User.applyToJob "ada" 1 db1 = Db.insert_application 1 "ada" db1
    ∧ ∀ (db' : DB) (username' : string) (jobId' : Z) (message : string),
        (User.applyToJob username' jobId' db').1
        ≠ Err (BadRequestError message).
Proof. apply (applyToJob_repeated sample_db "ada" 1); by_evaluation. Defined.

(** ** Authentication *)

Section Authenticate.
Context `{Externals}.

Lemma authenticate_cases (db : DB) (username password : string) :
  User.authenticate username password db
  = match Db.matching Users.username username (users db) with
    | user :: _ =>
        if bcrypt_compare password (Users.password user)
        then (Ok (User.without_password user), db)
        else (Err (UnauthorizedError "Invalid username/password"), db)
    | [] => (Err (UnauthorizedError "Invalid username/password"), db)
    end.
Proof.
  unfold User.authenticate, Db.select_user. run_method.
  destruct (Db.matching _ _ _) as [|user rows]; [done|].
  by destruct (bcrypt_compare _ _).
Qed.

Lemma authenticate_error (db : DB) (username password : string) (e : Error) :
  (User.authenticate username password db).1 = Err e →
  e = UnauthorizedError "Invalid username/password".
Proof.
  rewrite authenticate_cases.
  destruct (Db.matching _ _ _) as [|user rows]; [by intros [= <-]|].
  destruct (bcrypt_compare _ _); [done|by intros [= <-]].
Qed.
End Authenticate.

(** C6: [authenticate] returns the stored user without the password when a
    user has the username and [bcrypt.compare] accepts the password against
    the stored hash, and only then; in every other case (no such user, or a
    password [bcrypt.compare] does not accept) it throws the one
    [UnauthorizedError], so any two failures are the same error.  The store
    is left as it was. *)
Theorem authenticate_outcome `{Externals} :
  (∀ (db : DB) (username password : string) (user : Users.row)
     (rows : list Users.row),
     Db.matching Users.username username (users db) = user :: rows →
     bcrypt_compare password (Users.password user) = true →
     User.authenticate username password db
     = (Ok (User.without_password user), db))
  ∧ (∀ (db db' : DB) (username password : string) (u : User.t),
       User.authenticate username password db = (Ok u, db') →
       username ∈ Users.username <$> users db
       ∧ ∃ user rows,
           Db.matching Users.username username (users db) = user :: rows
           ∧ bcrypt_compare password (Users.password user) = true
           ∧ u = User.without_password user
           ∧ db' = db)
  ∧ (∀ (db : DB) (username password : string),
       username ∉ Users.username <$> users db
       ∨ (∃ user rows,
            Db.matching Users.username username (users db) = user :: rows
            ∧ bcrypt_compare password (Users.password user) = false) →
       User.authenticate username password db
       = (Err (UnauthorizedError "Invalid username/password"), db))
  ∧ (∀ (db1 db2 : DB) (username1 password1 username2 password2 : string)
       (e1 e2 : Error),
       (User.authenticate username1 password1 db1).1 = Err e1 →
       (User.authenticate username2 password2 db2).1 = Err e2 →
       e1 = e2).
Proof.
  split_and!.
  - intros db username password user rows Hm Hc.
    by rewrite authenticate_cases, Hm, Hc.
  - intros db db' username password u. rewrite authenticate_cases.
    destruct (Db.matching _ _ _) as [|user rows] eqn:Hm; [done|].
    destruct (bcrypt_compare _ _) eqn:Hc; [|done].
    intros [= <- <-]. split; [|by eauto 10].
    assert (user ∈ Db.matching Users.username username (users db)) as Hin
      by (rewrite Hm; left).
    apply matching_elem_of in Hin as [<- Hin].
    by apply list_elem_of_fmap_2.
  - intros db username password [Habsent|(user & rows & Hm & Hc)];
      rewrite authenticate_cases.
    + by rewrite (matching_absent _ _ _ Habsent).
    + by rewrite Hm, Hc.
  - intros db1 db2 u1 p1 u2 p2 e1 e2 H1 H2.
    apply authenticate_error in H1, H2. congruence.
Qed.

Lemma authenticate_outcome_witness :
  @User.authenticate sample_externals "ada" "secret" sample_db
  = (Ok {| User.username := "ada"; User.firstName := "Ada";
           User.lastName := "L"; User.email := "ada@example.org";
           User.isAdmin := false |}, sample_db)
  ∧ @User.authenticate sample_externals "ada" "guess" sample_db
    = (Err (UnauthorizedError "Invalid username/password"), sample_db)
  ∧ @User.authenticate sample_externals "bob" "secret" sample_db
    = (Err (UnauthorizedError "Invalid username/password"), sample_db).
Proof.
  destruct (@authenticate_outcome sample_externals)
    as (Haccept & _ & Hreject & _).
  split_and!.
  - apply (Haccept sample_db "ada" "secret" ada []); reflexivity.
  - apply Hreject. right. exists ada, []. split; reflexivity.
  - apply Hreject. left. by_evaluation.
Defined.

(** ** Creating a key twice *)

Lemma company_create_existing (db : DB) (data : Companies.row) :
  Companies.handle data ∈ Companies.handle <$> companies db →
  Company.create data db
  = (Err (BadRequestError ("Duplicate company: " +:+ Companies.handle data)),
     db).
Proof.
  intros (c & rows & Hm & _)%matching_present.
  unfold Company.create, Db.select_company. run_method. by rewrite Hm.
Qed.

Lemma company_create_ok (db db1 : DB) (data company : Companies.row) :
  Company.create data db = (Ok company, db1) →
  company = data
  ∧ db1 = Db.with_companies (companies db ++ [data]) db
  ∧ Companies.handle data ∉ Companies.handle <$> companies db.
Proof.
  unfold Company.create, Db.select_company, Db.insert_company,
    Db.insert_into. run_method.
  destruct (Db.matching _ _ _) as [|c rows] eqn:Hm; [|done].
  rewrite Hm. rewrite decide_True by done. intros [= <- <-].
  split_and!; [done..|].
  intros (c & rows & Hm' & _)%matching_present. congruence.
Qed.

Lemma company_create_fresh (db : DB) (data : Companies.row) :
  Companies.handle data ∉ Companies.handle <$> companies db →
  Company.create data db
  = (Ok data, Db.with_companies (companies db ++ [data]) db).
Proof.
  intros Hfresh.
  unfold Company.create, Db.select_company, Db.insert_company,
    Db.insert_into. run_method.
  rewrite (matching_absent _ _ _ Hfresh).
  by rewrite (matching_absent _ _ _ Hfresh), decide_True.
Qed.

Section Register.
Context `{Externals}.


Lemma user_register_existing (db : DB) (salt : string) (data : User.NewUser) :
  User.new_username data ∈ Users.username <$> users db →
  User.register salt data db
  = (Err (BadRequestError ("Duplicate username: " +:+ User.new_username data)),
     db).
Proof.
  intros (u & rows & Hm & _)%matching_present.
  unfold User.register, Db.select_user. run_method. by rewrite Hm.
Qed.

Lemma user_register_ok (db db1 : DB) (salt : string) (data : User.NewUser)
    (user : User.t) :
  User.register salt data db = (Ok user, db1) →
  user = User.without_password (registered salt data)
  ∧ db1 = Db.with_users (users db ++ [registered salt data]) db.
Proof.
  unfold User.register, Db.select_user, Db.insert_user, Db.insert_into.
  run_method.
  destruct (Db.matching _ _ _) as [|c rows] eqn:Hm; [|done].
  cbn [Users.username]. rewrite Hm. rewrite decide_True by done.
  by intros [= <- <-].
Qed.

Lemma user_register_fresh (db : DB) (salt : string) (data : User.NewUser) :
  User.new_username data ∉ Users.username <$> users db →
  User.register salt data db
  = (Ok (User.without_password (registered salt data)),
     Db.with_users (users db ++ [registered salt data]) db).
Proof.
  intros Hfresh.
  unfold User.register, Db.select_user, Db.insert_user, Db.insert_into.
  run_method. rewrite (matching_absent _ _ _ Hfresh). cbn [Users.username].
  by rewrite (matching_absent _ _ _ Hfresh), decide_True.
Qed.
End Register.

(** C7: once [Company.create] has succeeded for a handle, or
    [User.register] for a username, a second call with the same key throws
    [BadRequestError] and leaves the store exactly as the first call left
    it, the first row still in its table. *)
Theorem create_twice_rejected `{Externals} :
  (∀ (db db1 : DB) (first second company : Companies.row),
     Company.create first db = (Ok company, db1) →
     Companies.handle second = Companies.handle first →
     Company.create second db1
     = (Err (BadRequestError
               ("Duplicate company: " +:+ Companies.handle second)), db1)
     ∧ first ∈ companies db1)
  ∧ (∀ (db db1 : DB) (salt1 salt2 : string) (first second : User.NewUser)
       (user : User.t),
       User.register salt1 first db = (Ok user, db1) →
       User.new_username second = User.new_username first →
       User.register salt2 second db1
       = (Err (BadRequestError
                 ("Duplicate username: " +:+ User.new_username second)), db1)
       ∧ registered salt1 first ∈ users db1).
Proof.
  split.
  - intros db db1 first second company Hfirst Hsame.
    apply company_create_ok in Hfirst as (_ & -> & _).
    assert (first ∈ companies (Db.with_companies (companies db ++ [first]) db))
      as Hin by (simpl; apply elem_of_app; right; left).
    split; [|done]. apply company_create_existing. rewrite Hsame.
    by apply list_elem_of_fmap_2.
  - intros db db1 salt1 salt2 first second user Hfirst Hsame.
    apply user_register_ok in Hfirst as (_ & ->).
    assert (registered salt1 first
            ∈ users (Db.with_users (users db ++ [registered salt1 first]) db))
      as Hin by (simpl; apply elem_of_app; right; left).
    split; [|done]. apply user_register_existing. rewrite Hsame.
    by apply (list_elem_of_fmap_2 Users.username) in Hin.
Qed.


Lemma create_twice_rejected_witness :
  Company.create cog sample_db
  = (Ok cog, Db.with_companies [bolt; acme; cog] sample_db)
  ∧ Company.create cog_again (Db.with_companies [bolt; acme; cog] sample_db)
    = (Err (BadRequestError "Duplicate company: cog"),
       Db.with_companies [bolt; acme; cog] sample_db)
  ∧ cog ∈ [bolt; acme; cog].
Proof.
  split; [reflexivity|].
  apply (proj1 (@create_twice_rejected sample_externals)
           sample_db (Db.with_companies [bolt; acme; cog] sample_db)
           cog cog_again cog); reflexivity.
Defined.

(** ** The list operations *)

Section FindAll.
Context `{Externals}.

Lemma where_elem_of {R : Type} (value : R → string → option Value)
    (filters : list Filter) (params : list Value) (t : list R) (r : R) :
  r ∈ Db.where_ value filters params t
  ↔ r ∈ t ∧ forallb (Db.holds (value r) params) filters = true.
Proof. unfold Db.where_. rewrite list_elem_of_filter. tauto. Qed.

Lemma where_no_filter {R : Type} (value : R → string → option Value)
    (params : list Value) (t : list R) :
  Db.where_ value [] params t = t.
Proof.
  unfold Db.where_. induction t as [|r t IH]; [done|].
  rewrite filter_cons_True by done. by f_equal.
Qed.

Lemma holds_ilike_name (c : Companies.row) (params : list Value) (n : nat)
    (s : string) :
  param params n = Some (VText s) →
  Db.holds (Db.company_value c) params (ILike "name" n)
  = ilike_contains (Companies.name c) s.
Proof. intros Hp. unfold Db.holds. by rewrite Hp. Qed.

Lemma holds_compare_employees (c : Companies.row) (params : list Value)
    (op : Cmp) (n : nat) (m : Z) :
  param params n = Some (VInt m) →
  Db.holds (Db.company_value c) params (Compare "num_employees" op n)
  = match Companies.numEmployees c with
    | Some k => Db.compare_int op k m
    | None => false
    end.
Proof.
  intros Hp. unfold Db.holds. rewrite Hp.
  change (Db.company_value c "num_employees")
    with (Some (Db.nullable VInt (Companies.numEmployees c))).
  by destruct (Companies.numEmployees c).
Qed.




Lemma company_filters_hold (c : Companies.row) (name : option string)
    (minEmployees maxEmployees : option Z) :
  forallb (Db.holds (Db.company_value c)
             (Company.findAll_filters name minEmployees maxEmployees).1)
    (Company.findAll_filters name minEmployees maxEmployees).2
  = name_ok name c && employees_ok Gt minEmployees c
    && employees_ok Lt maxEmployees c.
Proof.
  unfold Company.findAll_filters, push_filter, name_ok, employees_ok.
  destruct name as [s|], minEmployees as [m|], maxEmployees as [m'|];
    cbn [text_arg int_arg from_option truthy];
    repeat match goal with
           | |- context [String.eqb ?s ""] => destruct (String.eqb s "")
           | |- context [(?m =? 0)%Z] => destruct (m =? 0)%Z
           end;
    cbn [negb fst snd forallb app length];
    repeat first
      [ erewrite holds_ilike_name by reflexivity
      | erewrite holds_compare_employees by reflexivity ].
  all: by rewrite ?andb_true_r, ?andb_assoc.
Qed.

Lemma name_ok_spec (name : option string) (c : Companies.row) :
  name_ok name c = true ↔ name_filter name c.
Proof.
  unfold name_ok, name_filter. destruct name as [s|]; [|naive_solver].
  destruct (String.eqb_spec s ""); naive_solver.
Qed.

Lemma min_ok_spec (minEmployees : option Z) (c : Companies.row) :
  employees_ok Gt minEmployees c = true ↔ min_filter minEmployees c.
Proof.
  unfold employees_ok, min_filter. destruct minEmployees as [m|].
  - destruct (Z.eqb_spec m 0) as [->|Hm].
    + split; [|done]. by intros _ m' [= <-] Hne.
    + destruct (Companies.numEmployees c) as [k|]; simpl.
      * rewrite Z.ltb_lt. split.
        -- intros Hlt m' [= <-] _. eauto.
        -- intros Hf. by destruct (Hf m eq_refl Hm) as (n & [= <-] & Hlt).
      * split; [done|]. intros Hf.
        by destruct (Hf m eq_refl Hm) as (n & Hn & _).
  - split; [|done]. by intros _ m.
Qed.

Lemma max_ok_spec (maxEmployees : option Z) (c : Companies.row) :
  employees_ok Lt maxEmployees c = true ↔ max_filter maxEmployees c.
Proof.
  unfold employees_ok, max_filter. destruct maxEmployees as [m|].
  - destruct (Z.eqb_spec m 0) as [->|Hm].
    + split; [|done]. by intros _ m' [= <-] Hne.
    + destruct (Companies.numEmployees c) as [k|]; simpl.
      * rewrite Z.ltb_lt. split.
        -- intros Hlt m' [= <-] _. eauto.
        -- intros Hf. by destruct (Hf m eq_refl Hm) as (n & [= <-] & Hlt).
      * split; [done|]. intros Hf.
        by destruct (Hf m eq_refl Hm) as (n & Hn & _).
  - split; [|done]. by intros _ m.
Qed.

Lemma by_name_total `{!Collation} : Total Db.by_name.
Proof. intros a b. apply collate_total. Qed.

Lemma by_name_trans `{!Collation} : Transitive Db.by_name.
Proof. intros a b c. apply collate_trans. Qed.

(** The rows [Company.findAll] returns: the companies that pass every
    truthy filter, in the order of their names. *)
Lemma company_findAll_rows `{!Collation} (db : DB) (name : option string)
    (minEmployees maxEmployees : option Z) :
  ∃ rows,
    Company.findAll name minEmployees maxEmployees db = (Ok rows, db)
    ∧ (∀ c, c ∈ rows ↔
            c ∈ companies db ∧ name_filter name c
            ∧ min_filter minEmployees c ∧ max_filter maxEmployees c)
    ∧ Sorted Db.by_name rows
    ∧ (truthy (text_arg name) = false →
       truthy (int_arg minEmployees) = false →
       truthy (int_arg maxEmployees) = false →
       rows ≡ₚ companies db).
Proof.
  unfold Company.findAll, Db.select_companies.
  pose proof (company_filters_hold) as Hhold.
  destruct (Company.findAll_filters name minEmployees maxEmployees)
    as [values filters] eqn:Hf.
  eexists. split_and!; [done| | |].
  - intros c. rewrite merge_sort_Permutation, where_elem_of.
    specialize (Hhold c name minEmployees maxEmployees).
    rewrite Hf in Hhold. simpl in Hhold. rewrite Hhold.
    rewrite !andb_true_iff, name_ok_spec, min_ok_spec, max_ok_spec. tauto.
  - pose proof by_name_total. apply (Sorted_merge_sort _).
  - intros Hn Hmin Hmax. rewrite merge_sort_Permutation.
    unfold Company.findAll_filters, push_filter in Hf.
    rewrite Hn, Hmin, Hmax in Hf. injection Hf as <- <-.
    by rewrite where_no_filter.
Qed.
End FindAll.

(** C2, amended: [Company.findAll] returns companies of the store only;
    when [name] is supplied and not the empty string every returned company
    matches it; when [minEmployees] is supplied and not 0 every returned
    company has an employee count, and it is at least [minEmployees]; when
    [maxEmployees] is supplied and not 0 every returned company has an
    employee count, and it is at most [maxEmployees]; a returned row passes
    all of these at once; the rows are in the order of their names; and when
    no filter is supplied, or each supplied one is 0 or the empty string,
    all companies are returned. *)
Theorem company_findAll_filtered `{Externals} `{!Collation} (db : DB)
    (name : option string) (minEmployees maxEmployees : option Z) :
  ∃ rows,
    Company.findAll name minEmployees maxEmployees db = (Ok rows, db)
    ∧ (∀ c, c ∈ rows →
         c ∈ companies db
         ∧ (∀ s, name = Some s → s ≠ "" →
              ilike_contains (Companies.name c) s = true)
         ∧ (∀ m, minEmployees = Some m → m ≠ 0 →
              ∃ n, Companies.numEmployees c = Some n ∧ m ≤ n)
         ∧ (∀ m, maxEmployees = Some m → m ≠ 0 →
              ∃ n, Companies.numEmployees c = Some n ∧ n ≤ m))
    ∧ StronglySorted
        (λ a b, collate_le (Companies.name a) (Companies.name b) = true) rows
    ∧ (truthy (text_arg name) = false →
       truthy (int_arg minEmployees) = false →
       truthy (int_arg maxEmployees) = false →
       rows ≡ₚ companies db).
Proof.
  destruct (company_findAll_rows db name minEmployees maxEmployees)
    as (rows & Hrun & Hrows & Hsorted & Hall).
  exists rows. split_and!; [done| | |done].
  - intros c (Hc & Hname & Hmin & Hmax)%Hrows. split_and!; [done..| |].
    + intros m Hm Hm0. destruct (Hmin m Hm Hm0) as (n & Hn & Hlt).
      exists n. split; [done|lia].
    + intros m Hm Hm0. destruct (Hmax m Hm Hm0) as (n & Hn & Hlt).
      exists n. split; [done|lia].
  - pose proof by_name_trans. by apply (Sorted_StronglySorted Db.by_name).
Qed.

Lemma sample_collation : @Collation sample_externals.
Proof.
  split; simpl.
  - apply String.leb_total.
  - intros s t u Hst%Is_true_true Htu%Is_true_true. apply Is_true_true.
    by trans t.
Qed.

Lemma company_findAll_filtered_witness :
  ∃ rows,
    @Company.findAll sample_externals None (Some 3) None sample_db
    = (Ok rows, sample_db)
    ∧ (∀ c, c ∈ rows →
         c ∈ companies sample_db
         ∧ (∀ s, None = Some s → s ≠ "" →
              contains (Companies.name c) s = true)
         ∧ (∀ m, Some 3 = Some m → m ≠ 0 →
              ∃ n, Companies.numEmployees c = Some n ∧ m ≤ n)
         ∧ (∀ m, None = Some m → m ≠ 0 →
              ∃ n, Companies.numEmployees c = Some n ∧ n ≤ m))
    ∧ StronglySorted
        (λ a b, String.leb (Companies.name a) (Companies.name b) = true) rows
    ∧ (truthy (text_arg None) = false →
       truthy (int_arg (Some 3)) = false →
       truthy (int_arg None) = false →
       rows ≡ₚ companies sample_db).
Proof.
  exact (@company_findAll_filtered sample_externals sample_collation
           sample_db None (Some 3) None).
Defined.

(** C2 as it is worded fails on a bound of 0: the method tests the bound
    for truthiness, so [maxEmployees = 0] filters nothing and a company with
    5 employees is returned; with [minEmployees = 0] so is a company with
    no employee count. *)
Lemma company_findAll_filtered_counterexample :
  @Company.findAll sample_externals None None (Some 0) sample_db
  = (Ok [acme; bolt], sample_db)
  ∧ Companies.numEmployees acme = Some 5
  ∧ ¬ (5 ≤ 0)
  ∧ @Company.findAll sample_externals None (Some 0) None sample_db
    = (Ok [acme; bolt], sample_db)
  ∧ Companies.numEmployees bolt = None.
Proof. split_and!; [by vm_compute|done|lia|by vm_compute|done]. Qed.

(** ** The WHERE clause *)

Lemma append_assoc (s t u : string) : (s +:+ t) +:+ u = s +:+ t +:+ u.
Proof.
  induction s as [|a s IH]; [done|].
  change (String a ((s +:+ t) +:+ u) = String a (s +:+ t +:+ u)).
  by rewrite IH.
Qed.

Lemma append_empty_r (s : string) : s +:+ "" = s.
Proof.
  induction s as [|a s IH]; [done|].
  change (String a (s +:+ "") = String a s). by rewrite IH.
Qed.


Lemma forEach_after_first (f : nat → string → nat * string)
    (filters : list string) (acc : string) :
  (∀ i x, ∃ n, f i x = (S n, x)) →
  foldl (λ acc '(index, filter),
           (if (index =? 0)%nat then acc else acc +:+ "AND ")
           +:+ filter +:+ " ")
        acc (imap f filters)
  = acc +:+ and_tail filters.
Proof.
  revert f acc. induction filters as [|x filters IH]; intros f acc Hf.
  - simpl. by rewrite append_empty_r.
  - rewrite imap_cons. cbn [foldl]. destruct (Hf 0%nat x) as [n ->].
    cbn [Nat.eqb]. rewrite IH by (intros i y; apply Hf).
    simpl. by rewrite !append_assoc.
Qed.

Lemma join_and_tail (x : string) (filters : list string) :
  x +:+ " " +:+ and_tail filters
  = join "AND " ((λ filter, filter +:+ " ") <$> x :: filters).
Proof.
  revert x. induction filters as [|y filters IH]; intros x.
  - simpl. by rewrite append_empty_r.
  - change (and_tail (y :: filters))
      with ("AND " +:+ y +:+ " " +:+ and_tail filters).
    rewrite IH. rewrite !fmap_cons. cbn [join].
    destruct ((λ filter, filter +:+ " ") <$> filters);
      by rewrite !append_assoc.
Qed.

(** The clause is empty without filters; otherwise it is ["WHERE "] and the
    filters, each followed by a blank, joined by ["AND "]. *)
Lemma concatenatedFilters_join (filters : list string) :
  concatenatedFilters filters
  = match filters with
    | [] => ""
    | _ :: _ => "WHERE " +:+ join "AND " ((λ filter, filter +:+ " ") <$> filters)
    end.
Proof.
  unfold concatenatedFilters. destruct filters as [|x filters]; [done|].
  cbn [length Nat.ltb Nat.leb]. rewrite imap_cons. cbn [foldl Nat.eqb].
  rewrite forEach_after_first by (intros i y; by exists i).
  by rewrite append_assoc, <- join_and_tail, !append_assoc.
Qed.

(** ** Job.findAll *)

Section JobOrder.
Context `{Externals} `{!Collation}.

Lemma nulls_last_le_total (a b : option string) :
  Db.nulls_last_le a b = true ∨ Db.nulls_last_le b a = true.
Proof. destruct a, b; simpl; auto using collate_total. Qed.

Lemma nulls_last_le_trans (a b c : option string) :
  Db.nulls_last_le a b = true → Db.nulls_last_le b c = true →
  Db.nulls_last_le a c = true.
Proof. destruct a, b, c; simpl; try done. apply collate_trans. Qed.

Lemma by_company_then_title_spec (a b : Db.JobListing) :
  Db.by_company_then_title a b
  ↔ Db.nulls_last_le (Db.companyName a) (Db.companyName b) = true
    ∧ (Db.nulls_last_le (Db.companyName b) (Db.companyName a) = true →
       collate_le (Db.title a) (Db.title b) = true).
Proof.
  unfold Db.by_company_then_title.
  destruct (Db.nulls_last_le (Db.companyName a) (Db.companyName b)),
    (Db.nulls_last_le (Db.companyName b) (Db.companyName a));
    intuition congruence.
Qed.

Lemma by_company_then_title_total : Total Db.by_company_then_title.
Proof.
  intros a b. rewrite !by_company_then_title_spec.
  destruct (Db.nulls_last_le (Db.companyName a) (Db.companyName b)) eqn:Hab,
    (Db.nulls_last_le (Db.companyName b) (Db.companyName a)) eqn:Hba.
  - destruct (collate_total (Db.title a) (Db.title b)); auto.
  - left. split; [done|]. intros; congruence.
  - right. split; [done|]. intros; congruence.
  - destruct (nulls_last_le_total (Db.companyName a) (Db.companyName b));
      congruence.
Qed.

Lemma by_company_then_title_trans : Transitive Db.by_company_then_title.
Proof.
  intros a b c. rewrite !by_company_then_title_spec.
  intros [Hab Hab'] [Hbc Hbc']. split.
  - by eapply nulls_last_le_trans.
  - intros Hca. eapply collate_trans.
    + apply Hab'. by eapply nulls_last_le_trans.
    + apply Hbc'. by eapply nulls_last_le_trans.
Qed.

Lemma job_findAll_rows (db : DB) (minSalary : option Z)
    (hasEquity : option bool) (title : option string) :
  ∃ rows,
    Job.findAll minSalary hasEquity title db = (Ok rows, db)
    ∧ StronglySorted Db.by_company_then_title rows
    ∧ rows ≡ₚ Db.where_ Db.listing_value
                (Job.findAll_filters minSalary hasEquity title).2
                (Job.findAll_filters minSalary hasEquity title).1
                (jobs db ≫= Db.left_join_company (companies db)).
Proof.
  unfold Job.findAll, Db.select_job_listings.
  destruct (Job.findAll_filters minSalary hasEquity title)
    as [values filters].
  eexists. split_and!; [done| |].
  - pose proof by_company_then_title_total.
    pose proof by_company_then_title_trans.
    apply (StronglySorted_merge_sort _).
  - apply merge_sort_Permutation.
Qed.
End JobOrder.

Lemma job_findAll_filters_cases (minSalary : option Z)
    (hasEquity : option bool) (title : option string) :
  Job.findAll_filters minSalary hasEquity title
  = ((if truthy (text_arg title) then [text_arg title] else [])
     ++ (if truthy (int_arg minSalary) then [int_arg minSalary] else []),
     (if truthy (text_arg title) then [ILike "title" 1] else [])
     ++ (if truthy (int_arg minSalary)
         then [Compare "salary" Ge (if truthy (text_arg title) then 2 else 1)]
         else [])
     ++ (if truthy (bool_arg hasEquity) then [Positive "equity"] else [])).
Proof.
  unfold Job.findAll_filters, push_filter.
  by destruct (truthy (text_arg title)), (truthy (int_arg minSalary)),
    (truthy (bool_arg hasEquity)).
Qed.

(** C8: [Job.findAll] pushes one fragment for each truthy parameter, in
    the order title, minimum salary, equity: the title and the salary
    fragments each name the positional parameter their value was pushed
    as, the equity fragment is the literal [equity > 0] (followed by a blank)
    and pushes no value.  The clause is empty without fragments, otherwise
    ["WHERE "] and the fragments joined by ["AND "]; the statement ends with
    [ORDER BY c.name, j.title].  What [Job.findAll] returns, with the store
    left as it was, is the rows of [jobs] joined with [companies] that pass
    every one of these fragments under the values pushed, each as often as
    the join has it, in the order of company name, then title. *)
Theorem job_findAll_query `{Externals} `{!Collation} (db : DB)
    (minSalary : option Z) (hasEquity : option bool) (title : option string) :
  let titled := truthy (text_arg title) in
  let salaried := truthy (int_arg minSalary) in
  let with_equity := truthy (bool_arg hasEquity) in
  let values := (Job.findAll_filters minSalary hasEquity title).1 in
  let filters :=
    filter_sql <$> (Job.findAll_filters minSalary hasEquity title).2 in
  filters
  = (if titled then ["title ILIKE '%' ||$1 || '%'"] else [])
    ++ (if salaried
        then ["salary >= $" +:+ (if titled then "2" else "1")] else [])
    ++ (if with_equity then ["equity > 0 "] else [])
  ∧ values
    = (if titled then [text_arg title] else [])
      ++ (if salaried then [int_arg minSalary] else [])
  ∧ concatenatedFilters filters
    = match filters with
      | [] => ""
      | _ :: _ =>
          "WHERE " +:+ join "AND " ((λ filter, filter +:+ " ") <$> filters)
      end
  ∧ job_findAll_sql minSalary hasEquity title
    = job_findAll_select +:+ concatenatedFilters filters +:+ nl
      +:+ "     ORDER BY c.name, j.title"
  ∧ ∃ rows,
      Job.findAll minSalary hasEquity title db = (Ok rows, db)
      ∧ StronglySorted Db.by_company_then_title rows
      ∧ rows ≡ₚ Db.where_ Db.listing_value
                  (Job.findAll_filters minSalary hasEquity title).2 values
                  (jobs db ≫= Db.left_join_company (companies db)).
Proof.
  cbv zeta. split_and!.
  - rewrite job_findAll_filters_cases.
    destruct (truthy (text_arg title)), (truthy (int_arg minSalary)),
      (truthy (bool_arg hasEquity)); reflexivity.
  - rewrite job_findAll_filters_cases. reflexivity.
  - apply concatenatedFilters_join.
  - reflexivity.
  - apply job_findAll_rows.
Qed.

Lemma job_findAll_query_witness :
  (let titled := truthy (text_arg (Some "eld")) in
   let salaried := truthy (int_arg (Some 50)) in
   let with_equity := truthy (bool_arg (Some true)) in
   let values :=
     (Job.findAll_filters (Some 50) (Some true) (Some "eld")).1 in
   let filters :=
     filter_sql
       <$> (Job.findAll_filters (Some 50) (Some true) (Some "eld")).2 in
   filters
   = (if titled then ["title ILIKE '%' ||$1 || '%'"] else [])
     ++ (if salaried
         then ["salary >= $" +:+ (if titled then "2" else "1")] else [])
     ++ (if with_equity then ["equity > 0 "] else [])
   ∧ values
     = (if titled then [text_arg (Some "eld")] else [])
       ++ (if salaried then [int_arg (Some 50)] else [])
   ∧ concatenatedFilters filters
     = match filters with
       | [] => ""
       | _ :: _ =>
           "WHERE " +:+ join "AND " ((λ filter, filter +:+ " ") <$> filters)
       end
   ∧ job_findAll_sql (Some 50) (Some true) (Some "eld")
     = job_findAll_select +:+ concatenatedFilters filters +:+ nl
       +:+ "     ORDER BY c.name, j.title"
   ∧ ∃ rows,
       @Job.findAll sample_externals (Some 50) (Some true) (Some "eld")
         hiring_db = (Ok rows, hiring_db)
       ∧ StronglySorted (@Db.by_company_then_title sample_externals) rows
       ∧ rows ≡ₚ @Db.where_ sample_externals _ Db.listing_value
                   (Job.findAll_filters (Some 50) (Some true) (Some "eld")).2
                   values
                   (jobs hiring_db
                    ≫= Db.left_join_company (companies hiring_db)))
  ∧ @Db.where_ sample_externals _ Db.listing_value
      (Job.findAll_filters (Some 50) (Some true) (Some "eld")).2
      (Job.findAll_filters (Some 50) (Some true) (Some "eld")).1
      (jobs hiring_db ≫= Db.left_join_company (companies hiring_db))
    = [ {| Db.id := 2; Db.title := "Welder"; Db.salary := Some 80;
           Db.equity := Some (1 # 10)%Q; Db.companyHandle := "bolt";
           Db.companyName := Some "Bolt" |} ].
Proof.
  split.
  - exact (@job_findAll_query sample_externals sample_collation hiring_db
             (Some 50) (Some true) (Some "eld")).
  - by vm_compute.
Defined.

Example job_findAll_hiring :
  @Job.findAll sample_externals (Some 50) (Some true) (Some "eld") hiring_db
  = (Ok [ {| Db.id := 2; Db.title := "Welder"; Db.salary := Some 80;
             Db.equity := Some (1 # 10)%Q; Db.companyHandle := "bolt";
             Db.companyName := Some "Bolt" |} ], hiring_db)
  ∧ @Job.findAll sample_externals None None None hiring_db
    = (Ok [ {| Db.id := 1; Db.title := "Smith"; Db.salary := Some 100;
               Db.equity := None; Db.companyHandle := "acme";
               Db.companyName := Some "Acme" |};
            {| Db.id := 2; Db.title := "Welder"; Db.salary := Some 80;
               Db.equity := Some (1 # 10)%Q; Db.companyHandle := "bolt";
               Db.companyName := Some "Bolt" |} ], hiring_db).
Proof. split; by vm_compute. Qed.

Example job_findAll_where_clause :
  concatenatedFilters
    (filter_sql
       <$> (Job.findAll_filters (Some 50) (Some true) (Some "smith")).2)
  = "WHERE title ILIKE '%' ||$1 || '%' AND salary >= $2 AND equity > 0  ".
Proof. by vm_compute. Qed.

(** * Further properties of the models *)

(** ** Creating, reading and removing a company *)

Lemma matching_snoc_fresh {R K : Type} `{EqDecision K} (key : R → K)
    (r : R) (t : list R) :
  key r ∉ key <$> t → Db.matching key (key r) (t ++ [r]) = [r].
Proof.
  intros Hfresh. unfold Db.matching. rewrite filter_app.
  fold (Db.matching key (key r) t). rewrite (matching_absent _ _ _ Hfresh).
  by rewrite filter_cons_True.
Qed.

(** X1: [Company.create] on a handle no company has succeeds, returns the
    data it was given and adds that one row to [companies]; [Company.get]
    on the handle then returns the same company. *)
Theorem company_create_then_get (db : DB) (data : Companies.row) :
  Companies.handle data ∉ Companies.handle <$> companies db →
  ∃ db1,
    Company.create data db = (Ok data, db1)
    ∧ db1 = {| companies := companies db ++ [data]; users := users db;
               jobs := jobs db; applications := applications db |}
    ∧ Company.get (Companies.handle data) db1 = (Ok data, db1).
Proof.
  intros Hfresh. eexists. split_and!.
  - by apply company_create_fresh.
  - done.
  - unfold Company.get, Db.select_company. run_method. cbn [companies].
    by rewrite (matching_snoc_fresh Companies.handle data _ Hfresh).
Qed.

Lemma company_create_then_get_witness :
  ∃ db1,
    Company.create cog sample_db = (Ok cog, db1)
    ∧ db1 = {| companies := [bolt; acme; cog]; users := [ada];
               jobs := [smith]; applications := [] |}
    ∧ Company.get "cog" db1 = (Ok cog, db1).
Proof. apply (company_create_then_get sample_db cog). by_evaluation. Defined.

Lemma delete_where_rows {R K : Type} `{EqDecision K} (key : R → K) (k : K)
    (t : list R) :
  (k ∉ key <$> (Db.delete_where key k t).1)
  ∧ ∀ r, r ∈ (Db.delete_where key k t).1 ↔ r ∈ t ∧ key r ≠ k.
Proof.
  unfold Db.delete_where. cbn [fst]. split.
  - intros (r & -> & Hr)%list_elem_of_fmap.
    by apply list_elem_of_filter in Hr as [Hne _].
  - intros r. rewrite list_elem_of_filter. tauto.
Qed.

(** X2: [Company.remove] on a handle some company has succeeds and removes
    from [companies] exactly the rows with that handle; afterwards
    [Company.get] and a second [Company.remove] on the handle throw
    [NotFoundError]. *)
Theorem company_remove_then_get (db : DB) (handle : string) :
  handle ∈ Companies.handle <$> companies db →
  ∃ db1,
    Company.remove handle db = (Ok (), db1)
    ∧ (∀ c, c ∈ companies db1 ↔ c ∈ companies db ∧ Companies.handle c ≠ handle)
    ∧ Company.get handle db1
      = (Err (NotFoundError ("No company: " +:+ handle)), db1)
    ∧ Company.remove handle db1
      = (Err (NotFoundError ("No company: " +:+ handle)), db1).
Proof.
  intros (c & rows & Hm & _)%matching_present.
  pose proof (delete_where_rows Companies.handle handle (companies db))
    as [Hgone Hrows].
  exists (Db.with_companies
            (Db.delete_where Companies.handle handle (companies db)).1 db).
  split_and!.
  - unfold Company.remove, Db.delete_company, Db.delete_where. run_method.
    by rewrite Hm.
  - exact Hrows.
  - by apply company_get_absent.
  - by apply company_remove_absent.
Qed.

Lemma company_remove_then_get_witness :
  ∃ db1,
    Company.remove "acme" sample_db = (Ok (), db1)
    ∧ (∀ c, c ∈ companies db1 ↔
            c ∈ companies sample_db ∧ Companies.handle c ≠ "acme")
    ∧ Company.get "acme" db1 = (Err (NotFoundError "No company: acme"), db1)
    ∧ Company.remove "acme" db1
      = (Err (NotFoundError "No company: acme"), db1).
Proof. apply (company_remove_then_get sample_db "acme"). by_evaluation. Defined.

(** ** What an update leaves alone, and what a thrown error leaves behind *)

Lemma matching_nil_absent {R K : Type} `{EqDecision K} (key : R → K) (k : K)
    (t : list R) :
  Db.matching key k t = [] → k ∉ key <$> t.
Proof.
  intros Hm (r & -> & Hr)%list_elem_of_fmap.
  by apply (filter_nil_not_elem_of _ _ r Hm).
Qed.

Lemma update_where_frame {R K : Type} `{EqDecision K} (key : R → K)
    (key_of_value : Value → option K)
    (columns : list (string * (Value → option (R → R))))
    (cols : list string) (key_idx : nat) (params : list Value) (v : Value)
    (k : K) (t t' rows : list R) :
  param params key_idx = Some v → key_of_value v = Some k →
  Db.update_where key key_of_value columns cols key_idx params t
  = Some (t', rows) →
  length t' = length t
  ∧ (∀ r, r ∈ t → key r ≠ k → r ∈ t')
  ∧ (rows = [] → t' = t).
Proof.
  intros Hv Hkey. unfold Db.update_where.
  case_decide; [|done].
  destruct (Db.set_clause columns cols 1 params) as [f|]; [|done]. simpl.
  rewrite Hv. simpl. rewrite Hkey. simpl.
  case_decide; [|done]. intros [= <- <-]. split_and!.
  - by rewrite length_fmap.
  - intros r Hr Hne. apply list_elem_of_fmap. exists r.
    by rewrite decide_False.
  - intros Hrows%fmap_nil_inv.
    by apply untouched_absent, matching_nil_absent.
Qed.

Lemma delete_where_none {R K : Type} `{EqDecision K} (key : R → K) (k : K)
    (t : list R) :
  (Db.delete_where key k t).2 = [] → (Db.delete_where key k t).1 = t.
Proof.
  intros Hm%matching_nil_absent.
  by rewrite (delete_where_absent _ _ _ Hm).
Qed.

Section Frames.
Context `{Externals}.

Lemma company_update_store (db db' : DB) (handle : string) (data : Sql.Data)
    (r : result Companies.row) :
  Company.update handle data db = (r, db') →
  ∃ t,
    db' = Db.with_companies t db
    ∧ length t = length (companies db)
    ∧ (∀ c, c ∈ companies db → Companies.handle c ≠ handle → c ∈ t)
    ∧ ((∀ c, r ≠ Ok c) → t = companies db).
Proof.
  destruct data as [|kv data].
  { intros [= <- <-]. exists (companies db). split_and!; try done.
    by rewrite with_companies_same. }
  unfold Company.update, Db.update_companies. run_method.
  rewrite sqlForPartialUpdate_cons. cbn [Sql.values].
  destruct (Db.update_where _ _ _ _ _ _ _) as [[t rows]|] eqn:Hup.
  - apply (update_where_frame Companies.handle as_text _ _ _ _
             (VText handle) handle _ _ _ (param_last _ _) eq_refl) in Hup
      as (Hlen & Hkeep & Hnone).
    destruct rows as [|c rows]; intros [= <- <-]; exists t.
    + split_and!; auto.
    + split_and!; auto. intros Hne. by destruct (Hne c).
  - intros [= <- <-]. exists (companies db). split_and!; try done.
    by rewrite with_companies_same.
Qed.

Lemma user_update_store (db db' : DB) (salt username : string)
    (data : Sql.Data) (r : result User.t) :
  User.update salt username data db = (r, db') →
  ∃ t,
    db' = Db.with_users t db
    ∧ length t = length (users db)
    ∧ (∀ u, u ∈ users db → Users.username u ≠ username → u ∈ t)
    ∧ ((∀ u, r ≠ Ok u) → t = users db).
Proof.
  unfold User.update, Db.update_users. run_method.
  destruct (User.hash_password salt data) as [[|kv data']|].
  1,3: intros [= <- <-]; exists (users db); split_and!; try done;
    by rewrite with_users_same.
  rewrite sqlForPartialUpdate_cons. cbn [Sql.values].
  destruct (Db.update_where _ _ _ _ _ _ _) as [[t rows]|] eqn:Hup.
  - apply (update_where_frame Users.username as_text _ _ _ _
             (VText username) username _ _ _ (param_last _ _) eq_refl) in Hup
      as (Hlen & Hkeep & Hnone).
    destruct rows as [|u rows]; intros [= <- <-]; exists t.
    + split_and!; auto.
    + split_and!; auto. intros Hne. by destruct (Hne (User.without_password u)).
  - intros [= <- <-]. exists (users db). split_and!; try done.
    by rewrite with_users_same.
Qed.

Lemma job_update_store (db db' : DB) (id : Z) (data : Sql.Data)
    (r : result Jobs.row) :
  Job.update id data db = (r, db') →
  ∃ t,
    db' = Db.with_jobs t db
    ∧ length t = length (jobs db)
    ∧ (∀ j, j ∈ jobs db → Jobs.id j ≠ id → j ∈ t)
    ∧ ((∀ j, r ≠ Ok j) → t = jobs db).
Proof.
  destruct data as [|kv data].
  { intros [= <- <-]. exists (jobs db). split_and!; try done.
    by rewrite with_jobs_same. }
  unfold Job.update, Db.update_jobs. run_method.
  rewrite sqlForPartialUpdate_cons. cbn [Sql.values].
  destruct (Db.update_where _ _ _ _ _ _ _) as [[t rows]|] eqn:Hup.
  - apply (update_where_frame Jobs.id as_int _ _ _ _
             (VInt id) id _ _ _ (param_last _ _) eq_refl) in Hup
      as (Hlen & Hkeep & Hnone).
    destruct rows as [|j rows]; intros [= <- <-]; exists t.
    + split_and!; auto.
    + split_and!; auto. intros Hne. by destruct (Hne j).
  - intros [= <- <-]. exists (jobs db). split_and!; try done.
    by rewrite with_jobs_same.
Qed.
End Frames.

(** X3: whatever the data and whatever the outcome, [update] of a model
    changes no other table, keeps the number of rows of its own table, and
    leaves every row under another key as it was. *)
Theorem update_frame `{Externals} (db : DB) :
  (∀ (handle : string) (data : Sql.Data) (r : result Companies.row)
     (db' : DB),
     Company.update handle data db = (r, db') →
     users db' = users db ∧ jobs db' = jobs db
     ∧ applications db' = applications db
     ∧ length (companies db') = length (companies db)
     ∧ ∀ c, c ∈ companies db → Companies.handle c ≠ handle →
            c ∈ companies db')
  ∧ (∀ (salt username : string) (data : Sql.Data) (r : result User.t)
       (db' : DB),
       User.update salt username data db = (r, db') →
       companies db' = companies db ∧ jobs db' = jobs db
       ∧ applications db' = applications db
       ∧ length (users db') = length (users db)
       ∧ ∀ u, u ∈ users db → Users.username u ≠ username → u ∈ users db')
  ∧ (∀ (id : Z) (data : Sql.Data) (r : result Jobs.row) (db' : DB),
       Job.update id data db = (r, db') →
       companies db' = companies db ∧ users db' = users db
       ∧ applications db' = applications db
       ∧ length (jobs db') = length (jobs db)
       ∧ ∀ j, j ∈ jobs db → Jobs.id j ≠ id → j ∈ jobs db').
Proof.
  split_and!.
  - intros handle data r db' (t & -> & Hlen & Hkeep & _)%company_update_store.
    by split_and!.
  - intros salt username data r db'
      (t & -> & Hlen & Hkeep & _)%user_update_store.
    by split_and!.
  - intros id data r db' (t & -> & Hlen & Hkeep & _)%job_update_store.
    by split_and!.
Qed.

Lemma update_frame_witness :
  bolt ∈ companies
           (Company.update "acme" [("name", VText "Acme Two")] sample_db).2.
Proof.
  destruct (proj1 (@update_frame sample_externals sample_db) "acme"
              [("name", VText "Acme Two")] _ _ (surjective_pairing _))
    as (_ & _ & _ & _ & Hkeep).
  apply Hkeep; [left|discriminate].
Defined.

Section Thrown.
Context `{Externals}.
Variables (db db' : DB) (e : Error).

Lemma company_create_thrown (data : Companies.row) :
  Company.create data db = (Err e, db') → db' = db.
Proof.
  unfold Company.create, Db.select_company, Db.insert_company. run_method.
  destruct (Db.matching _ _ _); [|by intros [= _ <-]].
  destruct (Db.insert_into _ _ _); [done|by intros [= _ <-]].
Qed.

Lemma company_remove_thrown (handle : string) :
  Company.remove handle db = (Err e, db') → db' = db.
Proof.
  unfold Company.remove, Db.delete_company. run_method.
  pose proof (delete_where_none Companies.handle handle (companies db))
    as Hnone.
  destruct (Db.delete_where _ _ _) as [t [|c rows]]; [|done].
  intros [= _ <-]. simpl in Hnone. rewrite Hnone by done.
  apply with_companies_same.
Qed.

Lemma user_register_thrown (salt : string) (data : User.NewUser) :
  User.register salt data db = (Err e, db') → db' = db.
Proof.
  unfold User.register, Db.select_user, Db.insert_user. run_method.
  destruct (Db.matching _ _ _); [|by intros [= _ <-]].
  destruct (Db.insert_into _ _ _); [done|by intros [= _ <-]].
Qed.

Lemma user_remove_thrown (username : string) :
  User.remove username db = (Err e, db') → db' = db.
Proof.
  unfold User.remove, Db.delete_user. run_method.
  pose proof (delete_where_none Users.username username (users db)) as Hnone.
  destruct (Db.delete_where _ _ _) as [t [|u rows]]; [|done].
  intros [= _ <-]. simpl in Hnone. rewrite Hnone by done.
  apply with_users_same.
Qed.

Lemma job_remove_thrown (id : Z) :
  Job.remove id db = (Err e, db') → db' = db.
Proof.
  unfold Job.remove, Db.delete_job. run_method.
  pose proof (delete_where_none Jobs.id id (jobs db)) as Hnone.
  destruct (Db.delete_where _ _ _) as [t [|j rows]]; [|done].
  intros [= _ <-]. simpl in Hnone. rewrite Hnone by done.
  apply with_jobs_same.
Qed.

Lemma applyToJob_thrown (username : string) (jobId : Z) :
  User.applyToJob username jobId db = (Err e, db') → db' = db.
Proof.
  unfold User.applyToJob, Db.select_job, Db.select_user,
    Db.insert_application. run_method.
  destruct (Db.matching Jobs.id _ _); [by intros [= _ <-]|].
  destruct (Db.matching Users.username _ _); [by intros [= _ <-]|].
  case_decide; [done|by intros [= _ <-]].
Qed.
End Thrown.

(** X11: a method of a model that changes the store and throws leaves the
    store exactly as it found it; this holds for [create], [update] and
    [remove] of a company, [register], [update], [remove] and [applyToJob]
    of a user, and [update] and [remove] of a job. *)
Theorem thrown_leaves_store `{Externals} (db db' : DB) (e : Error) :
  (∀ data, Company.create data db = (Err e, db') → db' = db)
  ∧ (∀ handle data, Company.update handle data db = (Err e, db') → db' = db)
  ∧ (∀ handle, Company.remove handle db = (Err e, db') → db' = db)
  ∧ (∀ salt data, User.register salt data db = (Err e, db') → db' = db)
  ∧ (∀ salt username data,
       User.update salt username data db = (Err e, db') → db' = db)
  ∧ (∀ username, User.remove username db = (Err e, db') → db' = db)
  ∧ (∀ username jobId,
       User.applyToJob username jobId db = (Err e, db') → db' = db)
  ∧ (∀ id data, Job.update id data db = (Err e, db') → db' = db)
  ∧ (∀ id, Job.remove id db = (Err e, db') → db' = db).
Proof.
  split_and!.
  - apply company_create_thrown.
  - intros handle data (t & -> & _ & _ & ->)%company_update_store;
      [apply with_companies_same|done].
  - apply company_remove_thrown.
  - apply user_register_thrown.
  - intros salt username data (t & -> & _ & _ & ->)%user_update_store;
      [apply with_users_same|done].
  - apply user_remove_thrown.
  - apply applyToJob_thrown.
  - intros id data (t & -> & _ & _ & ->)%job_update_store;
      [apply with_jobs_same|done].
  - apply job_remove_thrown.
Qed.

(** ** The list operations, exactly *)

(** X4: [Company.findAll] returns a company exactly when it is stored and
    passes every filter whose argument is truthy, the bounds being
    exclusive: with [minEmployees] (or [maxEmployees]) a number other than
    0, a company with exactly that many employees is not returned. *)
Theorem company_findAll_exclusive_bounds `{Externals} `{!Collation}
    (db : DB) (name : option string) (minEmployees maxEmployees : option Z) :
  ∃ rows,
    Company.findAll name minEmployees maxEmployees db = (Ok rows, db)
    ∧ (∀ c, c ∈ rows ↔
            c ∈ companies db
            ∧ (∀ s, name = Some s → s ≠ "" →
                 ilike_contains (Companies.name c) s = true)
            ∧ (∀ m, minEmployees = Some m → m ≠ 0 →
                 ∃ n, Companies.numEmployees c = Some n ∧ m < n)
            ∧ (∀ m, maxEmployees = Some m → m ≠ 0 →
                 ∃ n, Companies.numEmployees c = Some n ∧ n < m))
    ∧ (∀ c m, Companies.numEmployees c = Some m → m ≠ 0 →
              minEmployees = Some m ∨ maxEmployees = Some m → c ∉ rows).
Proof.
  destruct (company_findAll_rows db name minEmployees maxEmployees)
    as (rows & Hrun & Hrows & _).
  exists rows. split_and!; [done|exact Hrows|].
  intros c m Hc Hm Hbound (_ & _ & Hmin & Hmax)%Hrows.
  destruct Hbound as [Hb|Hb].
  - destruct (Hmin m Hb Hm) as (n & Hn & Hlt). simplify_eq. lia.
  - destruct (Hmax m Hb Hm) as (n & Hn & Hlt). simplify_eq. lia.
Qed.

Lemma company_findAll_exclusive_bounds_witness :
  ∃ rows,
    @Company.findAll sample_externals None (Some 5) None sample_db
    = (Ok rows, sample_db)
    ∧ acme ∉ rows.
Proof.
  destruct (@company_findAll_exclusive_bounds sample_externals
              sample_collation sample_db None (Some 5) None)
    as (rows & Hrun & _ & Hout).
  exists rows. split; [exact Hrun|].
  apply (Hout acme 5); [reflexivity|discriminate|by left].
Defined.

Section JobFilters.
Context `{Externals}.

Lemma holds_ilike_title (l : Db.JobListing) (params : list Value) (n : nat)
    (s : string) :
  param params n = Some (VText s) →
  Db.holds (Db.listing_value l) params (ILike "title" n)
  = ilike_contains (Db.title l) s.
Proof. intros Hp. unfold Db.holds. by rewrite Hp. Qed.

Lemma holds_salary (l : Db.JobListing) (params : list Value) (n : nat)
    (m : Z) :
  param params n = Some (VInt m) →
  Db.holds (Db.listing_value l) params (Compare "salary" Ge n)
  = match Db.salary l with Some k => (m <=? k)%Z | None => false end.
Proof.
  intros Hp. unfold Db.holds. rewrite Hp.
  change (Db.listing_value l "salary")
    with (Some (Db.nullable VInt (Db.salary l))).
  by destruct (Db.salary l).
Qed.

Lemma holds_equity (l : Db.JobListing) (params : list Value) :
  Db.holds (Db.listing_value l) params (Positive "equity")
  = match Db.equity l with Some q => (0 <? Qnum q)%Z | None => false end.
Proof.
  unfold Db.holds.
  change (Db.listing_value l "equity")
    with (Some (Db.nullable VNum (Db.equity l))).
  by destruct (Db.equity l).
Qed.

Lemma job_filters_hold (l : Db.JobListing) (minSalary : option Z)
    (hasEquity : option bool) (title : option string) :
  forallb (Db.holds (Db.listing_value l)
             (Job.findAll_filters minSalary hasEquity title).1)
    (Job.findAll_filters minSalary hasEquity title).2
  = match title with
    | Some s => if String.eqb s "" then true
                else ilike_contains (Db.title l) s
    | None => true
    end
    && match minSalary with
       | Some m =>
           if (m =? 0)%Z then true
           else match Db.salary l with
                | Some k => (m <=? k)%Z
                | None => false
                end
       | None => true
       end
    && match hasEquity with
       | Some true =>
           match Db.equity l with
           | Some q => (0 <? Qnum q)%Z
           | None => false
           end
       | _ => true
       end.
Proof.
  unfold Job.findAll_filters, push_filter.
  destruct title as [s|], minSalary as [m|], hasEquity as [[|]|];
    cbn [text_arg int_arg bool_arg from_option truthy];
    repeat match goal with
           | |- context [String.eqb ?s ""] => destruct (String.eqb s "")
           | |- context [(?m =? 0)%Z] => destruct (m =? 0)%Z
           end;
    cbn [negb fst snd forallb app length];
    repeat first
      [ erewrite holds_ilike_title by reflexivity
      | erewrite holds_salary by reflexivity
      | rewrite holds_equity ].
  all: by rewrite ?andb_true_r, ?andb_assoc.
Qed.
End JobFilters.

(** X5: [Job.findAll] returns a row of [jobs] left-joined with [companies]
    exactly when the row passes every filter whose argument is truthy: the
    title matches, the salary is present and at least [minSalary]
    (inclusive), and, for [hasEquity] true, the equity is present and
    positive.  A [minSalary] of 0, an empty title and a [hasEquity] of false
    filter nothing. *)
Theorem job_findAll_exact `{Externals} `{!Collation} (db : DB)
    (minSalary : option Z) (hasEquity : option bool) (title : option string) :
  ∃ rows,
    Job.findAll minSalary hasEquity title db = (Ok rows, db)
    ∧ ∀ l, l ∈ rows ↔
           l ∈ jobs db ≫= Db.left_join_company (companies db)
           ∧ (∀ s, title = Some s → s ≠ "" →
                ilike_contains (Db.title l) s = true)
           ∧ (∀ m, minSalary = Some m → m ≠ 0 →
                ∃ n, Db.salary l = Some n ∧ m ≤ n)
           ∧ (hasEquity = Some true →
                ∃ q, Db.equity l = Some q ∧ (0 < q)%Q).
Proof.
  destruct (job_findAll_rows db minSalary hasEquity title)
    as (rows & Hrun & _ & Hperm).
  exists rows. split; [done|]. intros l.
  rewrite Hperm, where_elem_of, job_filters_hold, !andb_true_iff.
  assert (match title with
          | Some s => if String.eqb s "" then true
                      else ilike_contains (Db.title l) s
          | None => true
          end = true
          ↔ ∀ s, title = Some s → s ≠ "" →
                 ilike_contains (Db.title l) s = true) as ->.
  { destruct title as [s|]; [|by split].
    destruct (String.eqb_spec s "") as [->|Hs].
    - split; [|done]. by intros _ s [= <-].
    - split; [by intros Hl s' [= <-]|]. intros Hl. by apply Hl. }
  assert (match minSalary with
          | Some m =>
              if (m =? 0)%Z then true
              else match Db.salary l with
                   | Some k => (m <=? k)%Z
                   | None => false
                   end
          | None => true
          end = true
          ↔ ∀ m, minSalary = Some m → m ≠ 0 →
                 ∃ n, Db.salary l = Some n ∧ m ≤ n) as ->.
  { destruct minSalary as [m|]; [|by split].
    destruct (Z.eqb_spec m 0) as [->|Hm].
    - split; [|done]. by intros _ m [= <-].
    - destruct (Db.salary l) as [k|].
      + rewrite Z.leb_le. split.
        * intros Hle m' [= <-] _. eauto.
        * intros Hf. by destruct (Hf m eq_refl Hm) as (n & [= <-] & Hle).
      + split; [done|]. intros Hf.
        by destruct (Hf m eq_refl Hm) as (n & Hn & _). }
  assert (match hasEquity with
          | Some true =>
              match Db.equity l with
              | Some q => (0 <? Qnum q)%Z
              | None => false
              end
          | _ => true
          end = true
          ↔ (hasEquity = Some true →
             ∃ q, Db.equity l = Some q ∧ (0 < q)%Q)) as ->.
  { destruct hasEquity as [[|]|]; [|by split..].
    destruct (Db.equity l) as [q|].
    - rewrite Z.ltb_lt. unfold Qlt. simpl. split.
      + intros Hq _. exists q. split; [done|lia].
      + intros Hq. destruct (Hq eq_refl) as (q' & [= <-] & Hlt). lia.
    - split; [done|]. intros Hq. by destruct (Hq eq_refl) as (q & Hq' & _). }
  tauto.
Qed.

Lemma job_findAll_exact_witness :
  ∃ rows,
    @Job.findAll sample_externals (Some 100) None None sample_db
    = (Ok rows, sample_db)
    ∧ ∀ l, l ∈ rows ↔
           l ∈ jobs sample_db ≫= Db.left_join_company (companies sample_db)
           ∧ (∀ s, None = Some s → s ≠ "" → contains (Db.title l) s = true)
           ∧ (∀ m, Some 100 = Some m → m ≠ 0 →
                ∃ n, Db.salary l = Some n ∧ m ≤ n)
           ∧ (None = Some true → ∃ q, Db.equity l = Some q ∧ (0 < q)%Q).
Proof.
  exact (@job_findAll_exact sample_externals sample_collation sample_db
           (Some 100) None None).
Defined.

Example job_findAll_inclusive :
  @Job.findAll sample_externals (Some 100) None None sample_db
  = (Ok [ {| Db.id := 1; Db.title := "Smith"; Db.salary := Some 100;
             Db.equity := None; Db.companyHandle := "acme";
             Db.companyName := Some "Acme" |} ], sample_db).
Proof. by vm_compute. Qed.

(** ** Listing users *)

Lemma by_username_total `{Externals} `{!Collation} : Total Db.by_username.
Proof. intros a b. apply collate_total. Qed.

Lemma by_username_trans `{Externals} `{!Collation} :
  Transitive Db.by_username.
Proof. intros a b c. apply collate_trans. Qed.

(** X6: [User.findAll] returns every stored user once, without the
    password, in the order of the usernames, and leaves the store as it
    is. *)
Theorem user_findAll_all_sorted `{Externals} `{!Collation} (db : DB) :
  ∃ rows,
    User.findAll db = (Ok rows, db)
    ∧ rows ≡ₚ User.without_password <$> users db
    ∧ StronglySorted
        (λ a b, collate_le (User.username a) (User.username b) = true) rows.
Proof.
  pose proof by_username_total. pose proof by_username_trans.
  exists (User.without_password <$> merge_sort Db.by_username (users db)).
  split_and!.
  - done.
  - by rewrite merge_sort_Permutation.
  - apply (StronglySorted_fmap _ Db.by_username); [by intros x y|].
    apply (StronglySorted_merge_sort _).
Qed.

Lemma user_findAll_all_sorted_witness :
  ∃ rows,
    @User.findAll sample_externals sample_db = (Ok rows, sample_db)
    ∧ rows ≡ₚ User.without_password <$> users sample_db
    ∧ StronglySorted
        (λ a b, String.leb (User.username a) (User.username b) = true) rows.
Proof.
  exact (@user_findAll_all_sorted sample_externals sample_collation sample_db).
Defined.

(** ** Placeholders and bound values of the list queries *)

(** X13: in [Company.findAll] and in [Job.findAll] the fragments that name
    a positional parameter name [$1], [$2], ... in order, as many as there
    are bound values; the bound values are the truthy arguments in the
    order of the tests; and the parameter each fragment names is bound to
    the argument the fragment was pushed for. *)
Theorem findAll_placeholders_match_values :
  (∀ (name : option string) (minEmployees maxEmployees : option Z),
     let values := (Company.findAll_filters name minEmployees maxEmployees).1 in
     let filters := (Company.findAll_filters name minEmployees maxEmployees).2 in
     omap filter_param filters = seq 1 (length values)
     ∧ values
       = filter (λ v, truthy v = true)
           [text_arg name; int_arg minEmployees; int_arg maxEmployees]
     ∧ ∀ n,
         (ILike "name" n ∈ filters → param values n = Some (text_arg name))
         ∧ (Compare "num_employees" Gt n ∈ filters →
            param values n = Some (int_arg minEmployees))
         ∧ (Compare "num_employees" Lt n ∈ filters →
            param values n = Some (int_arg maxEmployees)))
  ∧ (∀ (minSalary : option Z) (hasEquity : option bool)
       (title : option string),
       let values := (Job.findAll_filters minSalary hasEquity title).1 in
       let filters := (Job.findAll_filters minSalary hasEquity title).2 in
       omap filter_param filters = seq 1 (length values)
       ∧ values
         = filter (λ v, truthy v = true) [text_arg title; int_arg minSalary]
       ∧ ∀ n,
           (ILike "title" n ∈ filters → param values n = Some (text_arg title))
           ∧ (Compare "salary" Ge n ∈ filters →
              param values n = Some (int_arg minSalary))).
Proof.
  split.
  - intros name minEmployees maxEmployees. cbv zeta.
    unfold Company.findAll_filters, push_filter.
    rewrite !filter_cons, filter_nil.
    destruct (truthy (text_arg name)), (truthy (int_arg minEmployees)),
      (truthy (int_arg maxEmployees));
      (split_and!; [done|done|]); intros n; cbn [fst snd app length];
      (split_and!; intros Hin; fragment_cases Hin).
  - intros minSalary hasEquity title. cbv zeta.
    unfold Job.findAll_filters, push_filter.
    rewrite !filter_cons, filter_nil.
    destruct (truthy (text_arg title)), (truthy (int_arg minSalary)),
      (truthy (bool_arg hasEquity));
      (split_and!; [done|done|]); intros n; cbn [fst snd app length];
      (split_and!; intros Hin; fragment_cases Hin).
Qed.

(** ** Registering, authenticating, applying *)

(** X7: when [bcrypt.compare] accepts a password against every hash
    [bcrypt.hash] makes of it, a user registered under a username no user
    has can authenticate with the registered password, and gets the same
    record [register] returned. *)
Theorem register_then_authenticate `{Externals} (db : DB) (salt : string)
    (data : User.NewUser) :
  (∀ salt password, bcrypt_compare password (bcrypt_hash salt password) = true) →
  User.new_username data ∉ Users.username <$> users db →
  ∃ user db1,
    User.register salt data db = (Ok user, db1)
    ∧ User.authenticate (User.new_username data) (User.new_password data) db1
      = (Ok user, db1).
Proof.
  intros Hbcrypt Hfresh. eexists _, _. split.
  - by apply user_register_fresh.
  - rewrite authenticate_cases. cbn [users Db.with_users].
    rewrite (matching_snoc_fresh Users.username (registered salt data) _ Hfresh).
    cbn [Users.password registered]. by rewrite Hbcrypt.
Qed.

Lemma register_then_authenticate_witness :
  ∃ user db1,
    @User.register sample_externals "salt" dee sample_db = (Ok user, db1)
    ∧ @User.authenticate sample_externals "dee" "pw" db1 = (Ok user, db1).
Proof.
  apply (@register_then_authenticate sample_externals sample_db "salt" dee).
  - intros salt password. simpl. apply String.eqb_refl.
  - by_evaluation.
Defined.

Lemma applyToJob_ok (db db1 : DB) (username : string) (jobId : Z) :
  User.applyToJob username jobId db = (Ok (), db1) →
  db1 = Db.with_applications
          (applications db
           ++ [ {| Applications.job_id := jobId;
                   Applications.username := username |} ]) db.
Proof.
  unfold User.applyToJob, Db.select_job, Db.select_user,
    Db.insert_application. run_method.
  destruct (Db.matching Jobs.id jobId (jobs db)); [done|].
  destruct (Db.matching Users.username username (users db)); [done|].
  case_decide; [|done]. by intros [= <-].
Qed.

(** X9: once [applyToJob] has succeeded for a user and a job, [User.get]
    returns the same user, and the job ids it returns are the ids it returned
    before together with that job id.  The SELECT of the ids has no
    [ORDER BY]: the order they come in is the engine's, and only what the
    list holds is determined. *)
Theorem applyToJob_then_get `{Externals} (db db1 : DB) (username : string)
    (jobId : Z) (user : User.t) (applied : list Z) :
  (∀ rows, row_order rows ≡ₚ rows) →
  User.get username db = (Ok (user, applied), db) →
  User.applyToJob username jobId db = (Ok (), db1) →
  ∃ applied',
    User.get username db1 = (Ok (user, applied'), db1)
    ∧ applied' ≡ₚ jobId :: applied.
Proof.
  intros Horder Hget ->%applyToJob_ok. revert Hget.
  unfold User.get, Db.select_user, Db.select_applications. run_method.
  cbn [users applications Db.with_applications].
  destruct (Db.matching Users.username username (users db))
    as [|row rows] eqn:Hm; [done|].
  intros [= <- <-]. eexists. split; [done|].
  rewrite !Horder. cbn [applications Db.with_applications].
  rewrite filter_app, fmap_app, filter_cons_True, filter_nil by done.
  simpl. by rewrite Permutation_app_comm.
Qed.

Lemma applyToJob_then_get_witness :
  ∃ applied',
    @User.get sample_externals "ada"
      (Db.with_applications
         [ {| Applications.job_id := 2; Applications.username := "ada" |};
           {| Applications.job_id := 1; Applications.username := "ada" |} ]
         hiring_db)
    = (Ok (User.without_password ada, applied'),
       Db.with_applications
         [ {| Applications.job_id := 2; Applications.username := "ada" |};
           {| Applications.job_id := 1; Applications.username := "ada" |} ]
         hiring_db)
    ∧ applied' ≡ₚ [1; 2].
Proof.
  apply (@applyToJob_then_get sample_externals
           (Db.with_applications
              [ {| Applications.job_id := 2; Applications.username := "ada" |} ]
              hiring_db) _ "ada" 1 (User.without_password ada) [2]);
    [done|reflexivity|reflexivity].
Defined.

(** ** Reading a job *)

(** The first row of a table under a key is what a lookup by that key
    reads first. *)
Lemma matching_first {R K : Type} `{EqDecision K} (key : R → K) (k : K)
    (earlier later : list R) (r : R) :
  key r = k → k ∉ key <$> earlier →
  Db.matching key k (earlier ++ r :: later) = r :: Db.matching key k later.
Proof.
  intros Hr Hearlier. unfold Db.matching. rewrite filter_app.
  fold (Db.matching key k earlier). rewrite (matching_absent _ _ _ Hearlier).
  by rewrite filter_cons_True.
Qed.

Lemma first_with_key {R K : Type} `{EqDecision K} (key : R → K) (k : K)
    (t : list R) :
  k ∈ key <$> t →
  ∃ earlier r later,
    t = earlier ++ r :: later ∧ key r = k ∧ k ∉ key <$> earlier.
Proof.
  induction t as [|r t IH]; [by intros ?%not_elem_of_nil|].
  destruct (decide (key r = k)) as [Hr|Hr].
  - intros _. exists [], r, t. split_and!; [done..|]. apply not_elem_of_nil.
  - rewrite fmap_cons, elem_of_cons. intros [?|Hin]; [done|].
    destruct (IH Hin) as (earlier & r' & later & -> & Hr' & Hearlier).
    exists (r :: earlier), r', later. split_and!; [done..|].
    rewrite fmap_cons, not_elem_of_cons. by split.
Qed.

(** X10: [Job.get] succeeds exactly when a job has the id.  What it returns
    is the first job with the id, its [companyHandle] left out and a company
    attached: the first company whose handle is the job's [companyHandle],
    which is there whenever some company has that handle; when none has,
    the job still comes back, with no company at all rather than an
    error. *)
Theorem job_get_present (db : DB) (id : Z) :
  ((∃ job, Job.get id db = (Ok job, db)) ↔ id ∈ Jobs.id <$> jobs db)
  ∧ ∀ earlier row later,
      jobs db = earlier ++ row :: later →
      Jobs.id row = id → id ∉ Jobs.id <$> earlier →
      ∃ company,
        Job.get id db
        = (Ok {| Job.id := id; Job.title := Jobs.title row;
                 Job.salary := Jobs.salary row; Job.equity := Jobs.equity row;
                 Job.company := company |}, db)
        ∧ (Jobs.companyHandle row ∈ Companies.handle <$> companies db →
           ∃ cs c cs',
             companies db = cs ++ c :: cs'
             ∧ Companies.handle c = Jobs.companyHandle row
             ∧ (Jobs.companyHandle row ∉ Companies.handle <$> cs)
             ∧ company = Some c)
        ∧ (∀ cs c cs',
             companies db = cs ++ c :: cs' →
             Companies.handle c = Jobs.companyHandle row →
             Jobs.companyHandle row ∉ Companies.handle <$> cs →
             company = Some c)
        ∧ (Jobs.companyHandle row ∉ Companies.handle <$> companies db →
           company = None).
Proof.
  unfold Job.get, Db.select_job, Db.select_company. run_method. split.
  - split.
    + intros [job Hget].
      destruct (Db.matching Jobs.id id (jobs db)) as [|row rows] eqn:Hm;
        [done|].
      assert (row ∈ Db.matching Jobs.id id (jobs db)) as Hin
        by (rewrite Hm; left).
      apply matching_elem_of in Hin as [<- Hin]. by apply list_elem_of_fmap_2.
    + intros (row & rows & -> & _)%matching_present. eauto.
  - intros earlier row later -> Hid Hearlier.
    rewrite (matching_first _ _ _ _ _ Hid Hearlier). rewrite Hid.
    eexists. split; [done|]. split_and!.
    + intros (cs & c & cs' & -> & Hc & Hcs)%first_with_key.
      exists cs, c, cs'. split_and!; [done..|].
      by rewrite (matching_first _ _ _ _ _ Hc Hcs).
    + intros cs c cs' -> Hc Hcs.
      by rewrite (matching_first _ _ _ _ _ Hc Hcs).
    + intros Habsent. by rewrite (matching_absent _ _ _ Habsent).
Qed.

Example job_get_attaches_company :
  Job.get 2 hiring_db
  = (Ok {| Job.id := 2; Job.title := "Welder"; Job.salary := Some 80;
           Job.equity := Some (1 # 10)%Q; Job.company := Some bolt |},
     hiring_db)
  ∧ Job.get 1 (Db.with_companies [bolt] hiring_db)
    = (Ok {| Job.id := 1; Job.title := "Smith"; Job.salary := Some 100;
             Job.equity := None; Job.company := None |},
       Db.with_companies [bolt] hiring_db).
Proof. split; reflexivity. Qed.

(** ** Hashing the password of an update *)



(** ** Field names of a job update *)

Lemma assoc_not_key {A : Type} (k : string) (l : list (string * A)) :
  k ∉ l.*1 → assoc k l = None.
Proof.
  unfold assoc. induction l as [|[k' a] l IH]; [done|].
  rewrite fmap_cons, not_elem_of_cons. intros [Hne Hl]. simpl.
  destruct (String.eqb_spec k' k); [done|]. by apply IH.
Qed.

Lemma set_clause_columns {R : Type}
    (columns : list (string * (Value → option (R → R))))
    (cols : list string) (idx : nat) (params : list Value) (c : string) :
  c ∈ cols → assoc c columns = None →
  Db.set_clause columns cols idx params = None.
Proof.
  revert idx. induction cols as [|c' cols IH]; intros idx Hin Hc.
  { by apply not_elem_of_nil in Hin. }
  apply elem_of_cons in Hin as [<-|Hin]; simpl.
  - by rewrite Hc.
  - destruct (assoc c' columns) as [conv|]; [|done]. simpl.
    destruct (param params idx) as [v|]; [|done]. simpl.
    destruct (conv v) as [f|]; [|done]. simpl.
    by rewrite (IH _ Hin Hc).
Qed.

(** *** A SET clause over names that hold no double quote reads back as
    those names *)

Lemma quote_free_app (s t : string) :
  quote_free (s +:+ t) = quote_free s && quote_free t.
Proof.
  induction s as [|a s IH]; [done|].
  change (quote_free (String a (s +:+ t))
          = quote_free (String a s) && quote_free t).
  simpl. by rewrite IH, andb_assoc.
Qed.

Lemma quote_free_show_nat (n : nat) : quote_free (show_nat n) = true.
Proof.
  unfold show_nat. generalize (Nat.to_uint n). intros d.
  assert (quote_free (NilEmpty.string_of_uint d) = true) as Hdigits
    by (induction d; simpl; by rewrite ?IHd).
  by destruct d.
Qed.

Lemma segments_quote (text : string) :
  segments (dq +:+ text) = ("", (segments text).1 :: (segments text).2).
Proof.
  change (dq +:+ text) with (String (ascii_of_nat 34) text).
  cbn [segments]. by destruct (segments text).
Qed.

Lemma segments_quote_free (s text : string) :
  quote_free s = true →
  segments (s +:+ text) = (s +:+ (segments text).1, (segments text).2).
Proof.
  induction s as [|a s IH].
  - intros _. change ("" +:+ text) with text.
    change ("" +:+ (segments text).1) with (segments text).1.
    by destruct (segments text).
  - change (String a s +:+ text) with (String a (s +:+ text)).
    change (String a s +:+ (segments text).1)
      with (String a (s +:+ (segments text).1)).
    cbn [quote_free segments]. intros [Ha Hs]%andb_true_iff.
    rewrite (IH Hs). revert Ha.
    by destruct (Ascii.eqb a (ascii_of_nat 34)).
Qed.

Lemma segments_plain (s : string) :
  quote_free s = true → segments s = (s, []).
Proof.
  induction s as [|a s IH]; [done|].
  cbn [quote_free segments]. intros [Ha Hs]%andb_true_iff.
  rewrite (IH Hs). revert Ha. by destruct (Ascii.eqb a (ascii_of_nat 34)).
Qed.

Lemma join_cons (sep x : string) (l : list string) :
  l ≠ [] → join sep (x :: l) = x +:+ sep +:+ join sep l.
Proof. by destruct l. Qed.

Lemma quoted_names_assignments (f : nat → nat) (cols : list string) :
  Forall (λ col, quote_free col = true) cols →
  alternate
    (segments
       (join ", "
          (imap (λ idx col, dq +:+ col +:+ dq +:+ "=$" +:+ show_nat (f idx))
             cols))).2
  = cols.
Proof.
  intros Hcols. revert f.
  induction Hcols as [|col cols Hcol Hcols IH]; intros f; [done|].
  rewrite imap_cons. specialize (IH (f ∘ S)).
  change (imap _ cols)
    with (imap (λ idx col, dq +:+ col +:+ dq +:+ "=$"
                           +:+ show_nat ((f ∘ S) idx)) cols).
  destruct (decide (cols = [])) as [->|Hne].
  - cbn [imap join].
    rewrite segments_quote, segments_quote_free, segments_quote by done.
    cbn [fst snd alternate].
    rewrite segments_plain
      by (by rewrite quote_free_app, quote_free_show_nat).
    cbn [snd alternate]. by rewrite append_empty_r.
  - rewrite join_cons by (by intros ?%(f_equal length); destruct cols).
    rewrite !append_assoc.
    rewrite segments_quote, segments_quote_free, segments_quote by done.
    cbn [fst snd alternate]. rewrite append_empty_r.
    rewrite (segments_quote_free "=$") by done.
    rewrite segments_quote_free by apply quote_free_show_nat.
    rewrite (segments_quote_free ", ") by done.
    cbn [snd]. by rewrite IH.
Qed.

Lemma quoted_names_set_sql (cols : list string) :
  Forall (λ col, quote_free col = true) cols →
  quoted_names (set_sql cols) = cols.
Proof. apply (quoted_names_assignments (λ idx, (idx + 1)%nat)). Qed.

Lemma inherited_texts :
  Forall (λ p, quote_free p.2 = true ∧ p.2 ∉ job_column_names)
    Sql.Object_prototype.
Proof.
  repeat constructor; try reflexivity;
    intros Hin; fragment_cases Hin.
Qed.

Lemma inherited_text (k text : string) :
  Sql.inherited k = Some text →
  quote_free text = true ∧ text ∉ job_column_names.
Proof.
  unfold Sql.inherited. intros Hfind.
  destruct (List.find _ Sql.Object_prototype) as [p|] eqn:Hp; [|done].
  injection Hfind as <-. apply List.find_some in Hp as [Hp _].
  pose proof inherited_texts as Hall.
  rewrite Forall_forall in Hall. apply Hall. by apply list_elem_of_In.
Qed.

Lemma job_column_quote_free (k : string) :
  quote_free k = true → quote_free (Sql.column Job.jsToSql k) = true.
Proof.
  intros Hk. unfold Sql.column, Job.jsToSql. rewrite lookup_empty.
  destruct (Sql.inherited k) as [text|] eqn:Hi; [|done].
  by destruct (inherited_text _ _ Hi).
Qed.

Lemma job_column_unknown (k : string) :
  k ∉ job_column_names → Sql.column Job.jsToSql k ∉ job_column_names.
Proof.
  intros Hk. unfold Sql.column, Job.jsToSql. rewrite lookup_empty.
  destruct (Sql.inherited k) as [text|] eqn:Hi; [|done].
  by destruct (inherited_text _ _ Hi).
Qed.

(** X14: [Job.update] passes no name mapping, so the column of a field is
    the field's own name, unless the name is one every object inherits
    (such as [constructor]), whose column is the text of the inherited
    value.  When no field name holds a double quote, the names the SET
    clause puts between double quotes are these columns, one for each field
    and in their order, and a field that is not a column of [jobs] (such as
    [companyHandle], whose column is [company_handle]) makes the statement
    fail, for every id, with nothing changed. *)
Theorem job_update_field_names (id : Z) (data : Sql.Data) :
  (∀ k, Sql.column Job.jsToSql k = default k (Sql.inherited k))
  ∧ ((∀ k, k ∈ data.*1 → Sql.inherited k = None) →
     Sql.column Job.jsToSql <$> data.*1 = data.*1)
  ∧ ((∀ k, k ∈ data.*1 → quote_free k = true) →
     (∀ fragment, Sql.sqlForPartialUpdate data Job.jsToSql = Ok fragment →
        quoted_names (Sql.setCols fragment)
        = Sql.column Job.jsToSql <$> data.*1)
     ∧ ∀ k db, k ∈ data.*1 → k ∉ job_column_names →
         Job.update id data db = (Err QueryError, db)).
Proof.
  split_and!.
  - intros k. unfold Sql.column, Job.jsToSql. rewrite lookup_empty.
    by destruct (Sql.inherited k).
  - intros Hown. rewrite <- (list_fmap_id (data.*1)) at 2.
    apply list_fmap_ext. intros i k Hk%list_elem_of_lookup_2.
    unfold Sql.column, Job.jsToSql. rewrite lookup_empty.
    by rewrite (Hown k Hk).
  - intros Hfree. split.
    + intros fragment Hfragment.
      destruct (setCols_set_sql _ _ _ Hfragment) as [-> _].
      apply quoted_names_set_sql, Forall_fmap, Forall_forall.
      intros k Hk. by apply job_column_quote_free, Hfree.
    + intros k db Hk Hcol. destruct data as [|kv data].
      { by apply not_elem_of_nil in Hk. }
      unfold Job.update, Db.update_jobs, Db.update_where. run_method.
      rewrite sqlForPartialUpdate_cons. cbn [Sql.values].
      case_decide; [|done].
      rewrite (set_clause_columns Db.job_columns _ _ _
                 (Sql.column Job.jsToSql k)); [done| |].
      * apply list_elem_of_fmap. by exists k.
      * by apply assoc_not_key, job_column_unknown.
Qed.

Lemma job_update_field_names_witness :
  (∀ fragment,
     Sql.sqlForPartialUpdate
       [("title", VText "Welder"); ("companyHandle", VText "bolt")]
       Job.jsToSql = Ok fragment →
     quoted_names (Sql.setCols fragment) = ["title"; "companyHandle"])
  ∧ Job.update 1 [("title", VText "Welder"); ("companyHandle", VText "bolt")]
      sample_db
    = (Err QueryError, sample_db).
Proof.
  destruct (proj2 (proj2 (job_update_field_names 1
                            [("title", VText "Welder");
                             ("companyHandle", VText "bolt")])))
    as [Hnames Hfail].
  - intros k Hk.
    repeat (apply elem_of_cons in Hk as [->|Hk]; [reflexivity|]).
    by apply not_elem_of_nil in Hk.
  - split; [exact Hnames|].
    apply (Hfail "companyHandle"); by_evaluation.
Defined.

(** ** Changing a password *)

Lemma matching_unique {R K : Type} `{EqDecision K} (key : R → K) (r : R)
    (t : list R) :
  NoDup (key <$> t) → r ∈ t → Db.matching key (key r) t = [r].
Proof.
  unfold Db.matching. induction t as [|x t IH]; intros Hnd Hr.
  { by apply not_elem_of_nil in Hr. }
  rewrite fmap_cons in Hnd. apply NoDup_cons in Hnd as [Hx Hnd].
  apply elem_of_cons in Hr as [->|Hr].
  - rewrite filter_cons_True by done.
    fold (Db.matching key (key x) t). by rewrite matching_absent.
  - rewrite filter_cons_False; [by apply IH|].
    intros Heq. apply Hx. rewrite Heq. by apply list_elem_of_fmap_2.
Qed.

Lemma updated_keys {R K : Type} `{EqDecision K} (key : R → K) (f : R → R)
    (k : K) (t : list R) :
  (∀ r, key (f r) = key r) →
  key <$> ((λ r, if decide (key r = k) then f r else r) <$> t) = key <$> t.
Proof.
  intros Hf. rewrite <- list_fmap_compose. apply list_fmap_ext.
  intros i r _. simpl. case_decide; [apply Hf|done].
Qed.

Lemma updated_matching {R K : Type} `{EqDecision K} (key : R → K)
    (f : R → R) (k : K) (t : list R) :
  (∀ r, key (f r) = key r) →
  Db.matching key k ((λ r, if decide (key r = k) then f r else r) <$> t)
  = f <$> Db.matching key k t.
Proof.
  intros Hf. unfold Db.matching. induction t as [|x t IH]; [done|].
  rewrite fmap_cons. destruct (decide (key x = k)) as [Hx|Hx].
  - rewrite !filter_cons_True, fmap_cons by (by rewrite ?Hf). by f_equal.
  - by rewrite !filter_cons_False.
Qed.

(** X15: for a stored user, with usernames unique, [User.update] with a
    non-empty string as password stores the [bcrypt] hash of it in the
    user's row, changes nothing else of the row, and returns the user;
    afterwards [authenticate] accepts exactly the passwords
    [bcrypt.compare] accepts against the new hash. *)
Theorem user_update_password `{Externals} (db : DB) (salt p : string)
    (user : Users.row) :
  NoDup (Users.username <$> users db) →
  user ∈ users db →
  p ≠ "" →
  ∃ db1,
    User.update salt (Users.username user) [("password", VText p)] db
    = (Ok (User.without_password user), db1)
    ∧ Db.matching Users.username (Users.username user) (users db1)
      = [with_password (bcrypt_hash salt p) user]
    ∧ ∀ password,
        User.authenticate (Users.username user) password db1
        = if bcrypt_compare password (bcrypt_hash salt p)
          then (Ok (User.without_password user), db1)
          else (Err (UnauthorizedError "Invalid username/password"), db1).
Proof.
  intros Hnd Huser Hp.
  pose proof (matching_unique Users.username user _ Hnd Huser) as Hm.
  set (f := with_password (bcrypt_hash salt p)).
  assert (∀ r, Users.username (f r) = Users.username r) as Hf by done.
  exists (Db.with_users
            ((λ r, if decide (Users.username r = Users.username user)
                   then f r else r) <$> users db) db).
  assert (Db.matching Users.username (Users.username user)
            (users (Db.with_users
                      ((λ r, if decide (Users.username r = Users.username user)
                             then f r else r) <$> users db) db))
          = [f user]) as Hm1.
  { cbn [users Db.with_users]. by rewrite updated_matching, Hm. }
  split_and!.
  - unfold User.update, User.hash_password, Db.update_users, Db.update_where.
    run_method.
    change (assoc "password" [("password", VText p)]) with (Some (VText p)).
    cbn [truthy]. destruct (String.eqb_spec p ""); [done|]. cbn [negb].
    change ((λ kv : string * Value,
               if String.eqb kv.1 "password"
               then (kv.1, VText (bcrypt_hash salt p)) else kv)
              <$> [("password", VText p)])
      with [("password", VText (bcrypt_hash salt p))].
    rewrite sqlForPartialUpdate_cons. cbn [Sql.values].
    change (Sql.column User.jsToSql <$> [("password", VText (bcrypt_hash salt p))].*1)
      with ["password"].
    rewrite decide_True by (apply NoDup_singleton).
    change (Db.set_clause Db.user_columns ["password"] 1
              ([("password", VText (bcrypt_hash salt p))].*2
               ++ [VText (Users.username user)]))
      with (Some (λ r, f r)).
    cbn [mbind option_bind]. simpl param. cbn [mbind option_bind as_text].
    rewrite decide_True
      by (right; by rewrite (updated_keys Users.username f _ _ Hf)).
    by rewrite Hm.
  - exact Hm1.
  - intros password. rewrite authenticate_cases, Hm1.
    by destruct (bcrypt_compare _ _).
Qed.

Lemma user_update_password_witness :
  ∃ db1,
    @User.update sample_externals "salt" (Users.username ada)
      [("password", VText "new")] sample_db
    = (Ok (User.without_password ada), db1)
    ∧ Db.matching Users.username (Users.username ada) (users db1)
      = [with_password (@bcrypt_hash sample_externals "salt" "new") ada]
    ∧ ∀ password,
        @User.authenticate sample_externals (Users.username ada) password db1
        = if @bcrypt_compare sample_externals password
               (@bcrypt_hash sample_externals "salt" "new")
          then (Ok (User.without_password ada), db1)
          else (Err (UnauthorizedError "Invalid username/password"), db1).
Proof.
  apply (@user_update_password sample_externals sample_db "salt" "new" ada).
  - by_evaluation.
  - left.
  - discriminate.
Defined.

(** ** Methods that only read *)

(** X12: the methods that only select ([get] and [findAll] of every model,
    and [authenticate]) leave the store exactly as it was, whatever their
    arguments and whether they return or throw. *)
Theorem reads_leave_store `{Externals} (db : DB) :
  (∀ handle, (Company.get handle db).2 = db)
  ∧ (∀ name minEmployees maxEmployees,
       (Company.findAll name minEmployees maxEmployees db).2 = db)
  ∧ (∀ username password, (User.authenticate username password db).2 = db)
  ∧ (User.findAll db).2 = db
  ∧ (∀ username, (User.get username db).2 = db)
  ∧ (∀ id, (Job.get id db).2 = db)
  ∧ (∀ minSalary hasEquity title,
       (Job.findAll minSalary hasEquity title db).2 = db).
Proof.
  split_and!.
  - intros handle. unfold Company.get, Db.select_company. run_method.
    by destruct (Db.matching _ _ _).
  - intros name minEmployees maxEmployees.
    unfold Company.findAll, Db.select_companies.
    by destruct (Company.findAll_filters _ _ _).
  - intros username password. rewrite authenticate_cases.
    destruct (Db.matching _ _ _); [done|]. by destruct (bcrypt_compare _ _).
  - done.
  - intros username.
    unfold User.get, Db.select_user, Db.select_applications. run_method.
    by destruct (Db.matching _ _ _).
  - intros id. unfold Job.get, Db.select_job, Db.select_company. run_method.
    by destruct (Db.matching _ _ _).
  - intros minSalary hasEquity title.
    unfold Job.findAll, Db.select_job_listings.
    by destruct (Job.findAll_filters _ _ _).
Qed.

(** ** The users router *)

Section UsersRouter.
Context `{Externals} `{UsersRoutes.Web}.

Lemma user_remove_present (db : DB) (username : string) :
  username ∈ Users.username <$> users db →
  User.remove username db
  = (Ok (),
     Db.with_users (Db.delete_where Users.username username (users db)).1 db).
Proof.
  intros (u & rows & Hm & _)%matching_present.
  unfold User.remove, Db.delete_user, Db.delete_where. run_method.
  by rewrite Hm.
Qed.
End UsersRouter.

(** X16: [POST /] answers 201 with the new user and a token made from it
    exactly when the body passes the schema and no user has the username,
    and then the user is stored; a body that fails the schema is answered
    with the validator's messages without any statement being sent, and a
    valid body with a username already taken with [BadRequestError]; in
    both cases the store is untouched. *)
Theorem post_user_outcome `{Externals} `{UsersRoutes.Web} (db : DB)
    (salt : string) (body : User.NewUser) :
  (UsersRoutes.valid (UsersRoutes.validate_userNew body) = false →
   UsersRoutes.post salt body db
   = (UsersRoutes.Next
        (UsersRoutes.Invalid
           (UsersRoutes.stacks (UsersRoutes.validate_userNew body))), db))
  ∧ (UsersRoutes.valid (UsersRoutes.validate_userNew body) = true →
     User.new_username body ∈ Users.username <$> users db →
     UsersRoutes.post salt body db
     = (UsersRoutes.Next
          (UsersRoutes.Model
             (BadRequestError
                ("Duplicate username: " +:+ User.new_username body))), db))
  ∧ (UsersRoutes.valid (UsersRoutes.validate_userNew body) = true →
     User.new_username body ∉ Users.username <$> users db →
     UsersRoutes.post salt body db
     = (UsersRoutes.Json 201
          (User.without_password (registered salt body),
           UsersRoutes.createToken
             (User.without_password (registered salt body))),
        Db.with_users (users db ++ [registered salt body]) db))
  ∧ ∀ status reply db',
      UsersRoutes.post salt body db = (UsersRoutes.Json status reply, db') →
      status = 201%nat
      ∧ UsersRoutes.valid (UsersRoutes.validate_userNew body) = true
      ∧ User.new_username body ∉ Users.username <$> users db.
Proof.
  unfold UsersRoutes.post, UsersRoutes.reply. split_and!.
  - by intros ->.
  - intros -> Htaken. cbn [negb]. by rewrite user_register_existing.
  - intros -> Hfresh. cbn [negb]. by rewrite user_register_fresh.
  - intros status reply db'.
    destruct (UsersRoutes.valid _); cbn [negb]; [|done].
    destruct (decide (User.new_username body ∈ Users.username <$> users db))
      as [Htaken|Hfresh].
    + by rewrite user_register_existing.
    + rewrite user_register_fresh by done. by intros [= <- _ _].
Qed.

Lemma post_user_outcome_witness :
  @UsersRoutes.post sample_externals sample_web "salt" dee sample_db
  = (UsersRoutes.Json 201
       ({| User.username := "dee"; User.firstName := "Dee";
           User.lastName := "D"; User.email := "dee@example.org";
           User.isAdmin := false |}, "dee"),
     Db.with_users
       [ada; {| Users.username := "dee"; Users.password := "hash:pw";
                Users.firstName := "Dee"; Users.lastName := "D";
                Users.email := "dee@example.org"; Users.isAdmin := false |}]
       sample_db).
Proof.
  apply (proj1 (proj2 (proj2 (@post_user_outcome sample_externals sample_web
                                sample_db "salt" dee))));
    [reflexivity|by_evaluation].
Defined.

(** X17: [DELETE /:username] answers [{ deleted: username }] exactly when
    a user has the username, and then no user has it any more while the
    other users are kept; otherwise it hands [NotFoundError] to [next] and
    the store is untouched. *)
Theorem delete_user_outcome `{Externals} `{UsersRoutes.Web} (db : DB)
    (username : string) :
  (username ∈ Users.username <$> users db →
   ∃ db1,
     UsersRoutes.delete username db = (UsersRoutes.Json 200 username, db1)
     ∧ (username ∉ Users.username <$> users db1)
     ∧ ∀ u, u ∈ users db1 ↔ u ∈ users db ∧ Users.username u ≠ username)
  ∧ (username ∉ Users.username <$> users db →
     UsersRoutes.delete username db
     = (UsersRoutes.Next
          (UsersRoutes.Model (NotFoundError ("No user: " +:+ username))), db)).
Proof.
  unfold UsersRoutes.delete, UsersRoutes.reply. split.
  - intros Hin. rewrite user_remove_present by done.
    eexists. split; [done|].
    apply (delete_where_rows Users.username username (users db)).
  - intros Habsent. by rewrite user_remove_absent.
Qed.

Lemma delete_user_outcome_witness :
  ∃ db1,
    @UsersRoutes.delete "ada" sample_db = (UsersRoutes.Json 200 "ada", db1)
    ∧ ("ada" ∉ Users.username <$> users db1)
    ∧ ∀ u, u ∈ users db1 ↔ u ∈ users sample_db ∧ Users.username u ≠ "ada".
Proof.
  apply (proj1 (@delete_user_outcome sample_externals sample_web sample_db
                  "ada")).
  by_evaluation.
Defined.

(** X18: [PATCH /:username] with a body that fails the schema sends no
    statement and hands the validator's messages to [next]; with any body
    it keeps the number of users and every user under another username,
    and touches no other table. *)
Theorem patch_user_frame `{Externals} `{UsersRoutes.Web} (db : DB)
    (salt username : string) (body : Sql.Data) :
  (UsersRoutes.valid (UsersRoutes.validate_userUpdate body) = false →
   UsersRoutes.patch salt username body db
   = (UsersRoutes.Next
        (UsersRoutes.Invalid
           (UsersRoutes.stacks (UsersRoutes.validate_userUpdate body))), db))
  ∧ ∀ reply db',
      UsersRoutes.patch salt username body db = (reply, db') →
      companies db' = companies db ∧ jobs db' = jobs db
      ∧ applications db' = applications db
      ∧ length (users db') = length (users db)
      ∧ ∀ u, u ∈ users db → Users.username u ≠ username → u ∈ users db'.
Proof.
  unfold UsersRoutes.patch, UsersRoutes.reply. split.
  - by intros ->.
  - intros reply db'. destruct (UsersRoutes.valid _); cbn [negb].
    + destruct (User.update salt username body db) as [r db1] eqn:Hup.
      apply user_update_store in Hup as (t & -> & Hlen & Hkeep & _).
      by destruct r; intros [= _ <-].
    + by intros [= _ <-].
Qed.
